(** * PCMSolver: radial solutions for diffuse interfaces

    A shallow embedding of [src/green/InterfacesImpl.hpp] (namespace
    [interfaces]): the ln-transformed radial system handed to Boost.Odeint,
    the observer that records the trajectory, the two drivers [computeZeta]
    and [computeOmega], and the four evaluators.

    - [double] is the kernel's binary64 [float]; [int] is a 32-bit two's
      complement integer carried in [Z] (module [Int32]), signed overflow
      being read as the wrap-around of the usual targets.
    - [std::vector<double>] is [list float]; an index outside the vector is
      undefined behaviour and is reported as the result [Undefined].
    - [std::log], [std::pow] (libm), [numericalZero], [splineInterpolation]
      (MathUtils.hpp) and [integrate_adaptive] (Boost.Odeint) are not part of
      the translated file: they are the fields of the class [External]. *)

From Stdlib Require Import ZArith Lia String PrimFloat Uint63 FloatOps FloatAxioms SpecFloat.
From stdpp Require Import base list pretty.

Local Open Scope Z_scope.

(** ** The [int] of the source *)
Module Int32.

Definition min_signed : Z := - 2 ^ 31.
Definition max_signed : Z := 2 ^ 31 - 1.

Definition in_range (z : Z) : Prop := min_signed <= z <= max_signed.

(** Reduction of a mathematical integer to its 32-bit two's complement
    representative. *)
Definition wrap (z : Z) : Z := (z + 2 ^ 31) mod 2 ^ 32 - 2 ^ 31.

Definition add (a b : Z) : Z := wrap (a + b).
Definition mul (a b : Z) : Z := wrap (a * b).
Definition neg (a : Z) : Z := wrap (- a).

(** Conversion [int -> double]; exact, since every [int] is below [2^53]. *)
Definition to_double (z : Z) : float :=
  if z <? 0 then PrimFloat.opp (of_uint63 (Uint63.of_Z (- z)))
  else of_uint63 (Uint63.of_Z z).

End Int32.

(** ** Data model *)

(** [typedef std::vector<double> StateType] *)
Definition StateType : Type := list float.

(** [typedef std::array<StateType, 3> RadialSolution]: the three slots
    [f[0]] (grid), [f[1]] (function) and [f[2]] (first derivative). *)
Record RadialSolution : Type := mkRadialSolution {
  grid : StateType;
  func : StateType;
  deriv : StateType
}.

(** [typedef std::function<std::tuple<double, double>(const double)>] *)
Definition ProfileEvaluator : Type := float -> float * float.

Record IntegratorParameters : Type := mkIntegratorParameters {
  eps_abs_ : float;
  eps_rel_ : float;
  factor_x_ : float;
  factor_dxdt_ : float;
  r_0_ : float;
  r_infinity_ : float;
  observer_step_ : float
}.

(** The exceptions the translated code raises. *)
Inductive exception : Type :=
| domain_error (what : string).

(** What a call can come to. *)
Inductive result (A : Type) : Type :=
| Returns (a : A)
| Throws (e : exception)
| Undefined.
Arguments Returns {A} a.
Arguments Throws {A} e.
Arguments Undefined {A}.

#[global] Instance result_ret : MRet result := fun A a => Returns a.
#[global] Instance result_bind : MBind result := fun A B k m =>
  match m with
  | Returns a => k a
  | Throws e => Throws e
  | Undefined => Undefined
  end.

(** [v[i]] read and [v[i] = a] written on a [std::vector]. *)
Definition index (v : StateType) (i : nat) : result float :=
  match v !! i with
  | Some a => Returns a
  | None => Undefined
  end.

Definition store (v : StateType) (i : nat) (a : float) : result StateType :=
  if decide (i < length v)%nat then Returns (<[i:=a]> v) else Undefined.

(** Code that works on the [RadialSolution & f] it was given: the solution is
    threaded through, and is still there when an exception leaves the call. *)
Definition M (A : Type) : Type := RadialSolution -> result A * RadialSolution.

#[global] Instance M_ret : MRet M := fun A a f => (Returns a, f).
#[global] Instance M_bind : MBind M := fun A B k m f =>
  match m f with
  | (Returns a, f') => k a f'
  | (Throws e, f') => (Throws e, f')
  | (Undefined, f') => (Undefined, f')
  end.

Definition lift {A : Type} (r : result A) : M A := fun f => (r, f).

(** The constructor of [IntegratorParameters]: a member initialiser list and
    an empty body. *)
Definition IntegratorParameters_new (e_abs e_rel f_x f_dxdt r0 rinf step : float)
  : result IntegratorParameters :=
  Returns (mkIntegratorParameters e_abs e_rel f_x f_dxdt r0 rinf step).

(** [class LnTransformedRadial] *)
Record LnTransformedRadial : Type := mkLnTransformedRadial {
  eval_ : ProfileEvaluator;
  l_ : Z
}.

(** ** Boost.Odeint seen from the callbacks

    [integrate_adaptive] owns the control flow; what the translated code
    contributes are the two callbacks.  A run of the integrator is therefore
    a script of callback invocations: [system(x, dxdt, t)], whose answer (the
    filled [dxdt]) decides how the script goes on, and [observer(x, t)].
    Odeint catches nothing, so an exception of a callback ends the script.
    The integrator itself is taken to come to an end and to raise nothing of
    its own; when and how often it calls back is left open. *)
Inductive odeint (A : Type) : Type :=
| Done (a : A)
| CallSystem (x dxdt : StateType) (t : float) (k : StateType -> odeint A)
| CallObserver (x : StateType) (t : float) (k : odeint A).
Arguments Done {A} a.
Arguments CallSystem {A} x dxdt t k.
Arguments CallObserver {A} x t k.

(** [odeint::bulirsch_stoer_dense_out<StateType>]: the four constructor
    arguments. *)
Record bulirsch_stoer_dense_out : Type := mk_bulirsch_stoer_dense_out {
  stepper_eps_abs : float;
  stepper_eps_rel : float;
  stepper_factor_x : float;
  stepper_factor_dxdt : float
}.

(** A recorded point: radius, value, derivative. *)
Definition point : Type := (float * float * float)%type.

Definition append_points (f : RadialSolution) (pts : list point) : RadialSolution :=
  {| grid := grid f ++ map (fun p => p.1.1) pts;
     func := func f ++ map (fun p => p.1.2) pts;
     deriv := deriv f ++ map (fun p => p.2) pts |}.

Definition empty_solution : RadialSolution :=
  {| grid := []; func := []; deriv := [] |}.

(** Strict monotonicity of a grid, decided with the comparison of [double]. *)
Fixpoint strictly_increasing (l : list float) : bool :=
  match l with
  | a :: (b :: _) as tl => PrimFloat.ltb a b && strictly_increasing tl
  | _ => true
  end.

Fixpoint strictly_decreasing (l : list float) : bool :=
  match l with
  | a :: (b :: _) as tl => PrimFloat.ltb b a && strictly_decreasing tl
  | _ => true
  end.


(** [f[i].push_back(a)] on the solution being built. *)
Definition push_back_grid (a : float) : M unit := fun f =>
  (Returns tt, {| grid := grid f ++ [a]; func := func f; deriv := deriv f |}).
Definition push_back_func (a : float) : M unit := fun f =>
  (Returns tt, {| grid := grid f; func := func f ++ [a]; deriv := deriv f |}).
Definition push_back_deriv (a : float) : M unit := fun f =>
  (Returns tt, {| grid := grid f; func := func f; deriv := deriv f ++ [a] |}).

(** [observer(f, x, r)] *)
Definition observer (x : StateType) (r : float) : M unit :=
  _ ← push_back_grid r;
  x0 ← lift (index x 0);
  _ ← push_back_func x0;
  x1 ← lift (index x 1);
  push_back_deriv x1.

(** [reverse(f)]: [std::reverse] on each of the three vectors ([reverse]
    itself names the reversal of a list here). *)
Definition reversed (f : RadialSolution) : RadialSolution :=
  {| grid := reverse (grid f); func := reverse (func f); deriv := reverse (deriv f) |}.

Definition reverse_solution : M unit := fun f => (Returns tt, reversed f).

(** What the translated file takes from elsewhere. *)
Class External : Type := {
  (** [std::log] and [std::pow] of the C library *)
  log : float -> float;
  pow : float -> float -> float;
  (** [numericalZero] and [splineInterpolation] of MathUtils.hpp *)
  numericalZero : float -> bool;
  splineInterpolation : float -> StateType -> StateType -> float;
  (** [odeint::integrate_adaptive(stepper, system, start_state, start_time,
      end_time, dt, observer)], as the script of its callback invocations;
      the script ends with the final state, written back to [start_state] *)
  integrate_adaptive :
    bulirsch_stoer_dense_out -> StateType -> float -> float -> float -> odeint StateType
}.

Section Interfaces.

Context `{External}.

(** [LnTransformedRadial::operator()]; the out-parameter [drhodr] is returned. *)
Definition LnTransformedRadial_call (self : LnTransformedRadial)
    (rho drhodr : StateType) (r : float) : result StateType :=
  let '(eps, epsPrime) := eval_ self r in
  if numericalZero eps then Throws (domain_error "Division by zero!")
  else
    let gamma_epsilon := (epsPrime / eps)%float in
    rho1 ← index rho 1;
    drhodr ← store drhodr 0 rho1;
    store drhodr 1
      ((- rho1) * (rho1 + 2 / r + gamma_epsilon)
       + Int32.to_double (Int32.mul (l_ self) (Int32.add (l_ self) 1)) / pow r 2)%float.

(** Running a script of the integrator against the two callbacks: the system
    [system_] and [std::bind(observer, std::ref(f), _1, _2)]. *)
Fixpoint run {A : Type} (system_ : LnTransformedRadial) (p : odeint A) : M A :=
  match p with
  | Done a => mret a
  | CallSystem x dxdt t k =>
      drhodr ← lift (LnTransformedRadial_call system_ x dxdt t);
      run system_ (k drhodr)
  | CallObserver x t k =>
      _ ← observer x t;
      run system_ k
  end.

(** What a run comes to, the points it records and the radii at which it
    evaluates the system, read off the script without the solution. *)
Fixpoint outcome {A : Type} (system_ : LnTransformedRadial) (p : odeint A) : result A :=
  match p with
  | Done a => Returns a
  | CallSystem x dxdt t k =>
      drhodr ← LnTransformedRadial_call system_ x dxdt t;
      outcome system_ (k drhodr)
  | CallObserver x t k =>
      _ ← index x 0;
      _ ← index x 1;
      outcome system_ k
  end.

Fixpoint recorded {A : Type} (system_ : LnTransformedRadial) (p : odeint A) : list point :=
  match p with
  | Done _ => []
  | CallSystem x dxdt t k =>
      match LnTransformedRadial_call system_ x dxdt t with
      | Returns drhodr => recorded system_ (k drhodr)
      | _ => []
      end
  | CallObserver x t k =>
      match x with
      | x0 :: x1 :: _ => (t, x0, x1) :: recorded system_ k
      | _ => []
      end
  end.

Fixpoint evaluated {A : Type} (system_ : LnTransformedRadial) (p : odeint A) : list float :=
  match p with
  | Done _ => []
  | CallSystem x dxdt t k =>
      t :: match LnTransformedRadial_call system_ x dxdt t with
           | Returns drhodr => evaluated system_ (k drhodr)
           | _ => []
           end
  | CallObserver x t k =>
      match x with
      | _ :: _ :: _ => evaluated system_ k
      | _ => []
      end
  end.

(** The scripts the two drivers run: the arguments they pass to
    [integrate_adaptive], the initial conditions being stored into a
    two-element vector. *)
Definition zeta_script (L : Z) (params : IntegratorParameters) : odeint StateType :=
  integrate_adaptive
    (mk_bulirsch_stoer_dense_out (eps_abs_ params) (eps_rel_ params)
       (factor_x_ params) (factor_dxdt_ params))
    [ (Int32.to_double L * log (r_0_ params))%float;
      (Int32.to_double L / r_0_ params)%float ]
    (r_0_ params) (r_infinity_ params) (observer_step_ params).

Definition omega_script (L : Z) (params : IntegratorParameters) : odeint StateType :=
  integrate_adaptive
    (mk_bulirsch_stoer_dense_out (eps_abs_ params) (eps_rel_ params)
       (factor_x_ params) (factor_dxdt_ params))
    [ (Int32.to_double (Int32.neg (Int32.add L 1)) * log (r_infinity_ params))%float;
      (Int32.to_double (Int32.neg (Int32.add L 1)) / r_infinity_ params)%float ]
    (r_infinity_ params) (r_0_ params) (- observer_step_ params)%float.

(** The vector field of the specification at state [(value, derivative)]:
    [d value / dr = derivative] and [d derivative / dr =
    - derivative (derivative + 2/r + eps'/eps) + L (L + 1) / r^2], [L (L + 1)]
    being the product of integers. *)
Definition vector_field (L : Z) (eps epsPrime derivative r : float) : StateType :=
  [ derivative;
    ((- derivative) * (derivative + 2 / r + epsPrime / eps)
     + Int32.to_double (L * (L + 1)) / pow r 2)%float ].

(** Parameters the specification calls malformed: [r_0 >= r_infinity] or
    [r_0 <= 0]. *)
Definition malformed (r0 rinf : float) : bool :=
  ((rinf <=? r0) || (r0 <=? 0))%float.

(** [computeZeta(L, f, eval, params)] *)
Definition computeZeta (L : Z) (f : RadialSolution) (eval : ProfileEvaluator)
    (params : IntegratorParameters) : result unit * RadialSolution :=
  let stepper_ :=
    mk_bulirsch_stoer_dense_out (eps_abs_ params) (eps_rel_ params)
      (factor_x_ params) (factor_dxdt_ params) in
  let system_ := mkLnTransformedRadial eval L in
  let init_zeta_ : StateType := replicate 2 0%float in
  (init_zeta_ ← lift (store init_zeta_ 0
                        (Int32.to_double L * log (r_0_ params))%float);
   init_zeta_ ← lift (store init_zeta_ 1
                        (Int32.to_double L / r_0_ params)%float);
   _ ← run system_
         (integrate_adaptive stepper_ init_zeta_
            (r_0_ params) (r_infinity_ params) (observer_step_ params));
   mret tt) f.

(** [computeOmega(L, f, eval, params)] *)
Definition computeOmega (L : Z) (f : RadialSolution) (eval : ProfileEvaluator)
    (params : IntegratorParameters) : result unit * RadialSolution :=
  let stepper_ :=
    mk_bulirsch_stoer_dense_out (eps_abs_ params) (eps_rel_ params)
      (factor_x_ params) (factor_dxdt_ params) in
  let system_ := mkLnTransformedRadial eval L in
  let init_omega_ : StateType := replicate 2 0%float in
  (init_omega_ ← lift (store init_omega_ 0
                         (Int32.to_double (Int32.neg (Int32.add L 1))
                          * log (r_infinity_ params))%float);
   init_omega_ ← lift (store init_omega_ 1
                         (Int32.to_double (Int32.neg (Int32.add L 1))
                          / r_infinity_ params)%float);
   _ ← run system_
         (integrate_adaptive stepper_ init_omega_
            (r_infinity_ params) (r_0_ params) (- observer_step_ params)%float);
   reverse_solution) f.

(** [zeta(zeta_array, L, point, lower_bound)] *)
Definition zeta (zeta_array : RadialSolution) (L : Z) (point lower_bound : float) : float :=
  if (point <=? lower_bound)%float then (Int32.to_double L * log point)%float
  else splineInterpolation point (grid zeta_array) (func zeta_array).

(** [derivative_zeta(zeta_array, L, point, lower_bound)] *)
Definition derivative_zeta (zeta_array : RadialSolution) (L : Z)
    (point lower_bound : float) : float :=
  if (point <=? lower_bound)%float then (Int32.to_double L / point)%float
  else splineInterpolation point (grid zeta_array) (deriv zeta_array).

(** [omega(omega_array, L, point, upper_bound)]; [point >= upper_bound] is
    [upper_bound <= point]. *)
Definition omega (omega_array : RadialSolution) (L : Z) (point upper_bound : float) : float :=
  if (upper_bound <=? point)%float
  then (Int32.to_double (Int32.neg (Int32.add L 1)) * log point)%float
  else splineInterpolation point (grid omega_array) (func omega_array).

(** [derivative_omega(omega_array, L, point, upper_bound)] *)
Definition derivative_omega (omega_array : RadialSolution) (L : Z)
    (point upper_bound : float) : float :=
  if (upper_bound <=? point)%float
  then (Int32.to_double (Int32.neg (Int32.add L 1)) / point)%float
  else splineInterpolation point (grid omega_array) (deriv omega_array).

End Interfaces.

(** ** A concrete environment

    Executable stand-ins for the external functions, used to evaluate the
    model on concrete inputs. *)
Module Sample.

(** The natural logarithm by the first terms of [2 atanh ((x-1)/(x+1))]. *)
Definition log (x : float) : float :=
  let z := ((x - 1) / (x + 1))%float in
  let z2 := (z * z)%float in
  (2 * z * (1 + z2 * (1 / 3 + z2 * (1 / 5 + z2 * (1 / 7 + z2 / 9)))))%float.

(** [std::pow] at the only exponent the source uses. *)
Definition pow (x y : float) : float :=
  if (y =? 2)%float then (x * x)%float else nan.

(** [numericalZero] with a threshold of 1.0e-14. *)
Definition numericalZero (x : float) : bool :=
  (abs x <=? 0x1.6849b86a12b9bp-47)%float.

(** Piecewise linear interpolation in place of the spline. *)
Fixpoint splineInterpolation (x : float) (grid function : StateType) : float :=
  match grid, function with
  | x0 :: ((x1 :: _) as grid'), y0 :: ((y1 :: _) as function') =>
      if (x <=? x1)%float
      then (y0 + (x - x0) * ((y1 - y0) / (x1 - x0)))%float
      else splineInterpolation x grid' function'
  | _, y :: _ => y
  | _, _ => nan
  end.

(** Does [t] lie before [t_end] in the direction of [dt], or on it? *)
Definition less_eq_with_sign (t t_end dt : float) : bool :=
  if (0 <? dt)%float then (t <=? t_end)%float else (t_end <=? t)%float.

(** Explicit Euler steps of fixed size [dt], driven as [integrate_adaptive]
    drives a stepper: the current point is observed, then a step is taken
    (one evaluation of the system), until the next step would pass [t_end];
    the last point is observed too. *)
Fixpoint euler (steps : nat) (x : StateType) (t t_end dt : float) : odeint StateType :=
  match steps with
  | O => CallObserver x t (Done x)
  | S steps' =>
      if less_eq_with_sign (t + dt)%float t_end dt then
        CallObserver x t
          (CallSystem x (replicate (length x) 0%float) t
             (fun dxdt =>
                euler steps' (zip_with (fun a d => (a + dt * d)%float) x dxdt)
                  (t + dt)%float t_end dt))
      else CallObserver x t (Done x)
  end.

Definition integrate_adaptive (stepper : bulirsch_stoer_dense_out)
    (start_state : StateType) (start_time end_time dt : float) : odeint StateType :=
  euler 64 start_state start_time end_time dt.

Definition external : External :=
  Build_External log pow numericalZero splineInterpolation integrate_adaptive.

(** Two profiles: constant permittivity 1, and a permittivity that vanishes
    everywhere. *)
Definition vacuum : ProfileEvaluator := fun _ => (1%float, 0%float).
Definition vanishing : ProfileEvaluator := fun _ => (0%float, 0%float).

(** Integration over [1, 3] with observer step 1. *)
Definition params : IntegratorParameters :=
  mkIntegratorParameters 0x1p-30 0x1p-30 1 1 1 3 1.

End Sample.

(** ** Printing a solution *)

Section Printing.

(** [operator<<(double)] of the output stream, with the stream's format. *)
Variable put_double : float -> string.

(** [std::endl] *)
Definition endl : string := String (Ascii.ascii_of_nat 10) EmptyString.

(** The body of the loop of [writeRadialSolution], from index [i], [count]
    times: one row of the three vectors at a time. *)
Fixpoint write_rows (f : RadialSolution) (i count : nat) : result string :=
  match count with
  | O => Returns EmptyString
  | S count' =>
      r ← index (grid f) i;
      v ← index (func f) i;
      d ← index (deriv f) i;
      rest ← write_rows f (S i) count';
      Returns (put_double r ++ "    " ++ put_double v ++ "      " ++ put_double d
               ++ endl ++ rest)%string
  end.

(** [writeRadialSolution(f, fname)]: the text sent to the stream opened on
    [fname]; [int size = f[0].size()] narrows the size to [int]. *)
Definition writeRadialSolution (f : RadialSolution) (fname : string) : result string :=
  let size := Int32.wrap (Z.of_nat (length (grid f))) in
  rows ← write_rows f 0 (Z.to_nat size);
  Returns ("#   r        f        df    " ++ endl ++ rows)%string.

(** One row of the file, and the rows of the first [n] entries of three
    vectors read side by side. *)
Definition row (r v d : float) : string :=
  (put_double r ++ "    " ++ put_double v ++ "      " ++ put_double d ++ endl)%string.

Fixpoint rows_of (n : nat) (g fn dv : StateType) : string :=
  match n, g, fn, dv with
  | S n', r :: g', v :: fn', d :: dv' => (row r v d ++ rows_of n' g' fn' dv')%string
  | _, _, _, _ => EmptyString
  end.

End Printing.

(** Scripts whose callback invocations all carry a state of at least two
    components, and for the system a derivative vector of at least two. *)
Inductive sized {A : Type} : odeint A -> Prop :=
| sized_Done (a : A) : sized (Done a)
| sized_CallSystem (x dxdt : StateType) (t : float) (k : StateType -> odeint A) :
    (2 <= length x)%nat -> (2 <= length dxdt)%nat ->
    (forall drhodr, length drhodr = length dxdt -> sized (k drhodr)) ->
    sized (CallSystem x dxdt t k)
| sized_CallObserver (x : StateType) (t : float) (k : odeint A) :
    (2 <= length x)%nat -> sized k -> sized (CallObserver x t k).

(** The order in which an integrator observes.  [follows before last t]: the
    time [t] comes after the last observed time, if there is one. *)
Definition follows (before : float -> float -> bool) (last : option float)
    (t : float) : Prop :=
  match last with
  | None => True
  | Some t0 => before t0 t = true
  end.

(** Forward integration observes at strictly increasing times, backward
    integration at strictly decreasing ones. *)
Definition forward (t0 t : float) : bool := PrimFloat.ltb t0 t.

(** [observes_in_order before last n p]: whatever the system answers, the
    script [p] observes at times that follow one another (and [last]) in the
    order [before], and it observes at least [n] times before it is done. *)
Inductive observes_in_order {A : Type} (before : float -> float -> bool) :
    option float -> nat -> odeint A -> Prop :=
| in_order_Done (last : option float) (a : A) :
    observes_in_order before last 0 (Done a)
| in_order_CallSystem (last : option float) (n : nat)
    (x dxdt : StateType) (t : float) (k : StateType -> odeint A) :
    (forall drhodr, observes_in_order before last n (k drhodr)) ->
    observes_in_order before last n (CallSystem x dxdt t k)
| in_order_CallObserver (last : option float) (n : nat)
    (x : StateType) (t : float) (k : odeint A) :
    follows before last t ->
    observes_in_order before (Some t) (Nat.pred n) k ->
    observes_in_order before last n (CallObserver x t k).

(** A list of times in the order [before], after [last]. *)
Fixpoint in_order (before : float -> float -> bool) (last : option float)
    (l : list float) : Prop :=
  match l with
  | [] => True
  | t :: l' => follows before last t /\ in_order before (Some t) l'
  end.

(** ** Atoms and the table of Bondi radii ([cavitylib/Atom.cpp]) *)
Module Atoms.

#[local] Set Warnings "-inexact-float".

(** [Eigen::Vector3d] *)
Definition Vector3d : Type := (float * float * float)%type.

(** The data members the constructors assign. *)
Record Atom : Type := mkAtom {
  atomElement : string;
  atomSymbol : string;
  atomCharge : float;
  atomRadius : float;
  atomCoord : Vector3d;
  atomColour : string;
  atomRadiusScaling : float
}.

(** [Atom::Atom(element, symbol, charge, radius, coord, scaling, colour)] *)
Definition Atom_new (element symbol : string) (charge radius : float)
    (coord : Vector3d) (scaling : float) (colour : string) : Atom :=
  {| atomElement := element;
     atomSymbol := symbol;
     atomCharge := charge;
     atomRadius := radius;
     atomCoord := coord;
     atomColour := colour;
     atomRadiusScaling := scaling |}.

(** [Atom::Atom(element, symbol, charge, radius)] *)
Definition Atom_new_at_origin (element symbol : string) (charge radius : float) : Atom :=
  let Origin : Vector3d := (0, 0, 0)%float in
  let colour : string := "Violet" in
  {| atomElement := element;
     atomSymbol := symbol;
     atomCharge := charge;
     atomRadius := radius;
     atomCoord := Origin;
     atomColour := colour;
     atomRadiusScaling := 1 |}.

(** [Bondi[i] = a] on a [std::vector<Atom>]. *)
Definition assign (v : list Atom) (ia : nat * Atom) : result (list Atom) :=
  if decide (ia.1 < length v)%nat then Returns (<[ia.1 := ia.2]> v) else Undefined.

Fixpoint assign_all (v : list Atom) (assignments : list (nat * Atom)) : result (list Atom) :=
  match assignments with
  | [] => Returns v
  | ia :: rest => v' ← assign v ia; assign_all v' rest
  end.

Section Bondi.

(** Declared in Atom.h: the default constructor [Atom()], used by
    [vector<Atom> Bondi(54)], and the default argument for [colour], used by
    the six-argument calls below. *)
Variable default_atom : Atom.
Variable default_colour : string.

(** The 54 assignments of [Atom::initBondi], in the order of the source. *)
Definition Bondi_assignments : list (nat * Atom) :=
  let Origin : Vector3d := (0, 0, 0)%float in
  [
    (0%nat, Atom_new "Hydrogen" "H" 1.0 1.20 Origin 1.0 default_colour);
    (1%nat, Atom_new "Helium" "He" 2.0 1.40 Origin 1.0 default_colour);
    (2%nat, Atom_new "Lithium" "Li" 3.0 0.0 Origin 1.0 default_colour);
    (3%nat, Atom_new "Beryllium" "Be" 4.0 0.0 Origin 1.0 default_colour);
    (4%nat, Atom_new "Boron" "B" 5.0 0.0 Origin 1.0 default_colour);
    (5%nat, Atom_new "Carbon" "C" 6.0 1.70 Origin 1.0 default_colour);
    (6%nat, Atom_new "Nitrogen" "N" 7.0 1.55 Origin 1.0 default_colour);
    (7%nat, Atom_new "Oxygen" "O" 8.0 1.52 Origin 1.0 default_colour);
    (8%nat, Atom_new "Fluorine" "F" 9.0 1.47 Origin 1.0 default_colour);
    (9%nat, Atom_new "Neon" "Ne" 10.0 1.54 Origin 1.0 default_colour);
    (10%nat, Atom_new "Sodium" "Na" 11.0 0.0 Origin 1.0 default_colour);
    (11%nat, Atom_new "Magnesium" "Mg" 12.0 0.0 Origin 1.0 default_colour);
    (12%nat, Atom_new "Aluminium" "Al" 13.0 0.0 Origin 1.0 default_colour);
    (13%nat, Atom_new "Silicon" "Si" 14.0 2.10 Origin 1.0 default_colour);
    (14%nat, Atom_new "Phosphorus" "P" 15.0 1.80 Origin 1.0 default_colour);
    (15%nat, Atom_new "Sulphur" "S" 16.0 1.80 Origin 1.0 default_colour);
    (16%nat, Atom_new "Chlorine" "Cl" 17.0 1.75 Origin 1.0 default_colour);
    (17%nat, Atom_new "Argon" "Ar" 18.0 1.88 Origin 1.0 default_colour);
    (18%nat, Atom_new "Potassium" "K" 19.0 0.0 Origin 1.0 default_colour);
    (19%nat, Atom_new "Calcium" "Ca" 20.0 0.0 Origin 1.0 default_colour);
    (20%nat, Atom_new "Scandium" "Sc" 21.0 0.0 Origin 1.0 default_colour);
    (21%nat, Atom_new "Titanium" "Ti" 22.0 0.0 Origin 1.0 default_colour);
    (22%nat, Atom_new "Vanadium" "V" 23.0 0.0 Origin 1.0 default_colour);
    (23%nat, Atom_new "Chromium" "Cr" 24.0 0.0 Origin 1.0 default_colour);
    (24%nat, Atom_new "Manganese" "Mn" 25.0 0.0 Origin 1.0 default_colour);
    (25%nat, Atom_new "Iron" "Fe" 26.0 0.0 Origin 1.0 default_colour);
    (26%nat, Atom_new "Cobalt" "Co" 27.0 0.0 Origin 1.0 default_colour);
    (27%nat, Atom_new "Nickel" "Ni" 28.0 0.0 Origin 1.0 default_colour);
    (28%nat, Atom_new "Copper" "Cu" 29.0 0.0 Origin 1.0 default_colour);
    (29%nat, Atom_new "Zinc" "Zn" 30.0 0.0 Origin 1.0 default_colour);
    (30%nat, Atom_new "Gallium" "Ga" 31.0 0.0 Origin 1.0 default_colour);
    (31%nat, Atom_new "Germanium" "Ge" 32.0 0.0 Origin 1.0 default_colour);
    (32%nat, Atom_new "Arsenic" "As" 33.0 1.85 Origin 1.0 default_colour);
    (33%nat, Atom_new "Selenium" "Se" 34.0 1.90 Origin 1.0 default_colour);
    (34%nat, Atom_new "Bromine" "Br" 35.0 1.85 Origin 1.0 default_colour);
    (35%nat, Atom_new "Krypton" "Kr" 36.0 2.02 Origin 1.0 default_colour);
    (36%nat, Atom_new "Rubidium" "Rb" 37.0 0.0 Origin 1.0 default_colour);
    (37%nat, Atom_new "Strontium" "Sr" 38.0 0.0 Origin 1.0 default_colour);
    (38%nat, Atom_new "Yttrium" "Y" 39.0 0.0 Origin 1.0 default_colour);
    (39%nat, Atom_new "Zirconium" "Zr" 40.0 0.0 Origin 1.0 default_colour);
    (40%nat, Atom_new "Niobium" "Nb" 41.0 0.0 Origin 1.0 default_colour);
    (41%nat, Atom_new "Molybdenum" "Mo" 42.0 0.0 Origin 1.0 default_colour);
    (42%nat, Atom_new "Technetium" "Tc" 43.0 0.0 Origin 1.0 default_colour);
    (43%nat, Atom_new "Ruthenium" "Ru" 44.0 0.0 Origin 1.0 default_colour);
    (44%nat, Atom_new "Rhodium" "Rh" 45.0 0.0 Origin 1.0 default_colour);
    (45%nat, Atom_new "Palladium" "Pd" 46.0 0.0 Origin 1.0 default_colour);
    (46%nat, Atom_new "Silver" "Ag" 47.0 0.0 Origin 1.0 default_colour);
    (47%nat, Atom_new "Cadmium" "Cd" 48.0 0.0 Origin 1.0 default_colour);
    (48%nat, Atom_new "Indium" "In" 49.0 0.0 Origin 1.0 default_colour);
    (49%nat, Atom_new "Tin" "Sn" 50.0 0.0 Origin 1.0 default_colour);
    (50%nat, Atom_new "Antimony" "Sb" 51.0 0.0 Origin 1.0 default_colour);
    (51%nat, Atom_new "Tellurium" "Te" 52.0 2.06 Origin 1.0 default_colour);
    (52%nat, Atom_new "Iodine" "I" 53.0 1.98 Origin 1.0 default_colour);
    (53%nat, Atom_new "Xenon" "Xe" 54.0 2.16 Origin 1.0 default_colour)
  ].

(** [Atom::initBondi()] *)
Definition initBondi : result (list Atom) :=
  let Bondi := replicate 54 default_atom in
  assign_all Bondi Bondi_assignments.

End Bondi.

End Atoms.

(** A formatter for the examples: sign, mantissa and binary exponent. *)
Module SamplePrinting.

Definition put_double (x : float) : string :=
  match Prim2SF x with
  | S754_zero s => if s then "-0" else "0"
  | S754_infinity s => if s then "-inf" else "inf"
  | S754_nan => "nan"
  | S754_finite s m e =>
      ((if s then "-" else "") ++ pretty (Z.pos m) ++ "p" ++ pretty e)%string
  end.

End SamplePrinting.

(** * Properties *)

(** ** Integer arithmetic *)

Lemma wrap_in_range (z : Z) : Int32.in_range z -> Int32.wrap z = z.
Proof.
  unfold Int32.in_range, Int32.wrap, Int32.min_signed, Int32.max_signed.
  intros Hz. rewrite Z.mod_small; lia.
Qed.

(** [-(L + 1)] is computed exactly for every [int]: at [INT_MAX] the two
    wrap-arounds cancel. *)
Lemma neg_succ (L : Z) : Int32.in_range L -> Int32.neg (Int32.add L 1) = - (L + 1).
Proof.
  unfold Int32.neg, Int32.add. intros HL.
  destruct (Z.eq_dec L Int32.max_signed) as [->|Hne].
  - reflexivity.
  - unfold Int32.in_range, Int32.min_signed, Int32.max_signed in *.
    rewrite (wrap_in_range (L + 1)); [apply wrap_in_range|];
      unfold Int32.in_range, Int32.min_signed, Int32.max_signed; lia.
Qed.

(** [L * (L + 1)] is computed exactly as long as the product fits. *)
Lemma mul_succ (L : Z) :
  -46341 <= L <= 46340 -> Int32.mul L (Int32.add L 1) = L * (L + 1).
Proof.
  intros HL. unfold Int32.mul, Int32.add.
  rewrite (wrap_in_range (L + 1)); [apply wrap_in_range|];
    unfold Int32.in_range, Int32.min_signed, Int32.max_signed; nia.
Qed.

(** ** Lists of [double] *)

Lemma strictly_increasing_snoc (l : list float) (a b : float) :
  strictly_increasing ((l ++ [a]) ++ [b]) =
  strictly_increasing (l ++ [a]) && PrimFloat.ltb a b.
Proof.
  induction l as [|x [|y l] IH]; simpl in *.
  - now rewrite !andb_true_r.
  - now rewrite !andb_true_r.
  - rewrite IH. now rewrite andb_assoc.
Qed.

(** Reversal turns a strictly decreasing sequence into a strictly increasing
    one. *)
Lemma strictly_increasing_reverse (l : list float) :
  strictly_increasing (reverse l) = strictly_decreasing l.
Proof.
  induction l as [|a [|b l] IH]; [reflexivity..|].
  change (strictly_decreasing (a :: b :: l))
    with (PrimFloat.ltb b a && strictly_decreasing (b :: l)).
  rewrite <- IH, !reverse_cons, strictly_increasing_snoc.
  rewrite <- reverse_cons. apply andb_comm.
Qed.

Lemma append_points_nil (f : RadialSolution) : append_points f [] = f.
Proof. destruct f. unfold append_points. simpl. now rewrite !app_nil_r. Qed.

Lemma append_points_cons (f : RadialSolution) (p : point) (pts : list point) :
  append_points f (p :: pts) = append_points (append_points f [p]) pts.
Proof. unfold append_points. simpl. now rewrite <- !app_assoc. Qed.

(** ** The callbacks *)

Section Properties.

Context `{External}.

(** The observer appends one point to the three vectors when the state has
    its two components. *)
Lemma observer_point (x0 x1 : float) (xs : StateType) (r : float) (f : RadialSolution) :
  observer (x0 :: x1 :: xs) r f = (Returns tt, append_points f [(r, x0, x1)]).
Proof. reflexivity. Qed.

Lemma observer_short (x : StateType) (r : float) (f : RadialSolution) :
  (length x < 2)%nat -> (observer x r f).1 = Undefined.
Proof.
  destruct x as [|x0 [|x1 xs]]; simpl; intros Hlen; try reflexivity. lia.
Qed.

(** The system throws exactly the one exception, and exactly at a numerically
    zero permittivity, whatever the two vectors are. *)
Lemma call_throws (system_ : LnTransformedRadial) (rho drhodr : StateType)
    (r : float) (e : exception) :
  LnTransformedRadial_call system_ rho drhodr r = Throws e <->
  e = domain_error "Division by zero!" /\ numericalZero (eval_ system_ r).1 = true.
Proof.
  unfold LnTransformedRadial_call.
  destruct (eval_ system_ r) as [eps epsPrime]; simpl.
  destruct (numericalZero eps).
  - split; [intros [= <-]; now split | intros [-> _]; reflexivity].
  - split; [|intros [_ [=]]].
    unfold index, store.
    destruct (rho !! 1%nat); simpl; [|discriminate].
    destruct (decide (0 < length drhodr)%nat); simpl; [|discriminate].
    match goal with |- context [decide ?P] => destruct (decide P) end; discriminate.
Qed.

(** ** Runs of the integrator *)

Lemma run_outcome {A : Type} (system_ : LnTransformedRadial) (p : odeint A)
    (f : RadialSolution) :
  (run system_ p f).1 = outcome system_ p.
Proof.
  revert f. induction p as [a|x dxdt t k IH|x t k IH]; intros f; simpl.
  - reflexivity.
  - unfold mbind, M_bind, lift; simpl.
    destruct (LnTransformedRadial_call system_ x dxdt t); simpl; auto.
  - destruct x as [|x0 [|x1 xs]]; try reflexivity.
    unfold mbind at 1. unfold M_bind. rewrite observer_point. apply IH.
Qed.

Lemma run_solution {A : Type} (system_ : LnTransformedRadial) (p : odeint A)
    (f : RadialSolution) :
  outcome system_ p <> Undefined ->
  (run system_ p f).2 = append_points f (recorded system_ p).
Proof.
  revert f. induction p as [a|x dxdt t k IH|x t k IH]; intros f; simpl.
  - intros _. now rewrite append_points_nil.
  - unfold mbind, M_bind, result_bind, lift; simpl.
    destruct (LnTransformedRadial_call system_ x dxdt t); simpl.
    + apply IH.
    + intros _. now rewrite append_points_nil.
    + congruence.
  - destruct x as [|x0 [|x1 xs]]; simpl; try congruence.
    intros Hk. unfold mbind at 1. unfold M_bind. rewrite observer_point.
    rewrite (IH _ Hk). symmetry. apply append_points_cons.
Qed.

(** A run is the pair of what it comes to and of the solution with the
    recorded points appended, in the order of recording. *)
Lemma run_defined {A : Type} (system_ : LnTransformedRadial) (p : odeint A)
    (f : RadialSolution) :
  outcome system_ p <> Undefined ->
  run system_ p f = (outcome system_ p, append_points f (recorded system_ p)).
Proof.
  intros Hp. rewrite <- (run_outcome system_ p f), <- (run_solution system_ p f Hp).
  now destruct (run system_ p f).
Qed.

Lemma run_undefined {A : Type} (system_ : LnTransformedRadial) (p : odeint A)
    (f : RadialSolution) :
  outcome system_ p = Undefined -> (run system_ p f).1 = Undefined.
Proof. intros Hp. now rewrite run_outcome. Qed.

(** A run throws exactly when the system is evaluated at a radius of
    numerically zero permittivity. *)
Lemma outcome_throws {A : Type} (system_ : LnTransformedRadial) (p : odeint A)
    (e : exception) :
  outcome system_ p = Throws e <->
  e = domain_error "Division by zero!" /\
  exists r, r ∈ evaluated system_ p /\ numericalZero (eval_ system_ r).1 = true.
Proof.
  induction p as [a|x dxdt t k IH|x t k IH]; simpl.
  - split; [discriminate|]. intros [_ (r & Hr & _)]. inversion Hr.
  - unfold mbind, result_bind.
    destruct (LnTransformedRadial_call system_ x dxdt t) as [d|e'|] eqn:Hcall.
    + rewrite IH. split; intros [-> (r & Hr & Hz)]; split; auto.
      * exists r. split; [now right|assumption].
      * apply elem_of_cons in Hr as [->|Hr]; [|now exists r].
        assert (Hthrow : LnTransformedRadial_call system_ x dxdt t
                         = Throws (domain_error "Division by zero!"))
          by (apply call_throws; now split).
        congruence.
    + apply call_throws in Hcall as [-> Hz]. split.
      * intros [= <-]. split; [reflexivity|]. exists t. split; [now left|assumption].
      * now intros [-> _].
    + split; [discriminate|]. intros [-> (r & Hr & Hz)].
      apply elem_of_cons in Hr as [->|Hr]; [|inversion Hr].
      assert (Hthrow : LnTransformedRadial_call system_ x dxdt t
                       = Throws (domain_error "Division by zero!"))
        by (apply call_throws; now split).
      congruence.
  - destruct x as [|x0 [|x1 xs]]; simpl.
    + split; [discriminate|]. intros [_ (r & Hr & _)]. inversion Hr.
    + split; [discriminate|]. intros [_ (r & Hr & _)]. inversion Hr.
    + apply IH.
Qed.

(** ** The two drivers *)

Lemma computeZeta_run (L : Z) (f : RadialSolution) (eval : ProfileEvaluator)
    (params : IntegratorParameters) :
  computeZeta L f eval params =
  (_ ← run (mkLnTransformedRadial eval L) (zeta_script L params); mret tt) f.
Proof. reflexivity. Qed.

Lemma computeOmega_run (L : Z) (f : RadialSolution) (eval : ProfileEvaluator)
    (params : IntegratorParameters) :
  computeOmega L f eval params =
  (_ ← run (mkLnTransformedRadial eval L) (omega_script L params); reverse_solution) f.
Proof. reflexivity. Qed.

(** The three ways [computeZeta] can end. *)
Lemma computeZeta_cases (L : Z) (f : RadialSolution) (eval : ProfileEvaluator)
    (params : IntegratorParameters) :
  let system_ := mkLnTransformedRadial eval L in
  let script := zeta_script L params in
  match outcome system_ script with
  | Returns _ =>
      computeZeta L f eval params = (Returns tt, append_points f (recorded system_ script))
  | Throws e =>
      computeZeta L f eval params = (Throws e, append_points f (recorded system_ script))
  | Undefined => (computeZeta L f eval params).1 = Undefined
  end.
Proof.
  intros system_ script. rewrite computeZeta_run. fold system_ script.
  unfold mbind, M_bind.
  destruct (outcome system_ script) as [x|e|] eqn:Hout.
  - rewrite run_defined by congruence. now rewrite Hout.
  - rewrite run_defined by congruence. now rewrite Hout.
  - pose proof (run_undefined system_ script f Hout) as Hrun.
    destruct (run system_ script f) as [[x|e|] f']; simpl in Hrun;
      try discriminate; reflexivity.
Qed.

(** The three ways [computeOmega] can end: the reversal is reached only when
    the integration returns. *)
Lemma computeOmega_cases (L : Z) (f : RadialSolution) (eval : ProfileEvaluator)
    (params : IntegratorParameters) :
  let system_ := mkLnTransformedRadial eval L in
  let script := omega_script L params in
  match outcome system_ script with
  | Returns _ =>
      computeOmega L f eval params =
      (Returns tt, reversed (append_points f (recorded system_ script)))
  | Throws e =>
      computeOmega L f eval params = (Throws e, append_points f (recorded system_ script))
  | Undefined => (computeOmega L f eval params).1 = Undefined
  end.
Proof.
  intros system_ script. rewrite computeOmega_run. fold system_ script.
  unfold mbind, M_bind.
  destruct (outcome system_ script) as [x|e|] eqn:Hout.
  - rewrite run_defined by congruence. now rewrite Hout.
  - rewrite run_defined by congruence. now rewrite Hout.
  - pose proof (run_undefined system_ script f Hout) as Hrun.
    destruct (run system_ script f) as [[x|e|] f']; simpl in Hrun;
      try discriminate; reflexivity.
Qed.

(** A driver throws exactly when its integration does. *)
Lemma computeZeta_throws (L : Z) (f : RadialSolution) (eval : ProfileEvaluator)
    (params : IntegratorParameters) (e : exception) :
  (computeZeta L f eval params).1 = Throws e <->
  outcome (mkLnTransformedRadial eval L) (zeta_script L params) = Throws e.
Proof.
  pose proof (computeZeta_cases L f eval params) as Hcases. simpl in Hcases.
  destruct (outcome _ (zeta_script L params)) as [x|e'|];
    rewrite Hcases; simpl; split; congruence.
Qed.

Lemma computeOmega_throws (L : Z) (f : RadialSolution) (eval : ProfileEvaluator)
    (params : IntegratorParameters) (e : exception) :
  (computeOmega L f eval params).1 = Throws e <->
  outcome (mkLnTransformedRadial eval L) (omega_script L params) = Throws e.
Proof.
  pose proof (computeOmega_cases L f eval params) as Hcases. simpl in Hcases.
  destruct (outcome _ (omega_script L params)) as [x|e'|];
    rewrite Hcases; simpl; split; congruence.
Qed.

(** No evaluation at a numerically zero permittivity, no exception. *)
Lemma outcome_no_throw {A : Type} (system_ : LnTransformedRadial) (p : odeint A)
    (inside : float -> Prop) :
  (forall r, inside r -> numericalZero (eval_ system_ r).1 = false) ->
  (forall r, r ∈ evaluated system_ p -> inside r) ->
  forall e, outcome system_ p <> Throws e.
Proof.
  intros Hpos Hpath e Hthrow.
  apply outcome_throws in Hthrow as [_ (r & Hr & Hz)].
  rewrite (Hpos r (Hpath r Hr)) in Hz. discriminate.
Qed.

Lemma reversed_involutive (f : RadialSolution) : reversed (reversed f) = f.
Proof. destruct f. unfold reversed. simpl. now rewrite !reverse_involutive. Qed.

Lemma append_points_lengths (f : RadialSolution) (pts : list point) :
  length (grid f) = length (func f) ->
  length (func f) = length (deriv f) ->
  length (grid (append_points f pts)) = length (func (append_points f pts)) /\
  length (func (append_points f pts)) = length (deriv (append_points f pts)).
Proof.
  intros Hgf Hfd. unfold append_points. simpl.
  rewrite !length_app, !length_map. lia.
Qed.

End Properties.

(** ** Comparison of [double] *)

Lemma SFcompare_Eq_sym (a b : spec_float) :
  SFcompare a b = Some Eq -> SFcompare b a = Some Eq.
Proof.
  destruct a as [sa|sa| |sa ma ea], b as [sb|sb| |sb mb eb]; simpl;
    try discriminate; try reflexivity;
    try (destruct sa, sb; (discriminate || reflexivity)).
  destruct sa, sb; try discriminate;
    destruct (Z.compare_spec ea eb) as [->| |]; try discriminate;
    rewrite Z.compare_refl; intros [= Hm].
  - destruct (Pos.compare_cont Eq ma mb) eqn:E; try discriminate.
    apply Pos.compare_eq in E as ->. now rewrite Pos.compare_cont_refl.
  - apply Pos.compare_eq in Hm as ->. now rewrite Pos.compare_cont_refl.
Qed.

(** Two doubles that compare equal are below one another. *)
Lemma eqb_leb (a b : float) :
  (a =? b)%float = true -> (a <=? b)%float = true /\ (b <=? a)%float = true.
Proof.
  rewrite FloatAxioms.eqb_spec, !FloatAxioms.leb_spec. unfold SFeqb, SFleb. intros Heq.
  destruct (SFcompare (Prim2SF a) (Prim2SF b)) as [[| |]|] eqn:Hab; try discriminate.
  now rewrite (SFcompare_Eq_sym _ _ Hab).
Qed.

(** ** Integrators that observe in order *)

Lemma in_order_increasing (last : option float) (l : list float) :
  in_order forward last l -> strictly_increasing l = true.
Proof.
  revert last. induction l as [|t l IH]; intros last; [reflexivity|].
  intros [_ Hrest]. specialize (IH _ Hrest).
  destruct l as [|t' l]; [reflexivity|].
  destruct Hrest as [Htt' _]. unfold follows, forward in Htt'.
  change (strictly_increasing (t :: t' :: l))
    with (PrimFloat.ltb t t' && strictly_increasing (t' :: l)).
  now rewrite Htt', IH.
Qed.


(** On a run that returns, the radii are recorded in the order in which the
    script observes, and there are as many as the script promises. *)
Lemma recorded_in_order `{External} {A : Type} (system_ : LnTransformedRadial)
    (before : float -> float -> bool) (last : option float) (n : nat)
    (p : odeint A) (a : A) :
  observes_in_order before last n p ->
  outcome system_ p = Returns a ->
  in_order before last (map (fun q : point => q.1.1) (recorded system_ p)) /\
  (n <= length (recorded system_ p))%nat.
Proof.
  induction 1 as [last a'|last n x dxdt t k Hk IH|last n x t k Ht Hk IH]; simpl.
  - intros _. split; [exact I | lia].
  - unfold mbind, result_bind.
    destruct (LnTransformedRadial_call system_ x dxdt t) as [drhodr| |];
      [apply IH | discriminate..].
  - destruct x as [|x0 [|x1 rest]]; simpl; try discriminate.
    intros Hreturns. destruct (IH Hreturns) as [Horder Hcount].
    simpl. split; [now split | lia].
Qed.

(** The integrator of the examples observes in order on the sample
    parameters, in both directions, three times. *)
Lemma sample_zeta_observes (L : Z) :
  observes_in_order forward None 2 (zeta_script (H := Sample.external) L Sample.params).
Proof.
  unfold zeta_script. cbn [integrate_adaptive Sample.external Sample.integrate_adaptive].
  unfold Sample.params. cbn [r_0_ r_infinity_ observer_step_].
  apply in_order_CallObserver; [exact I|]. apply in_order_CallSystem. intros d1.
  apply in_order_CallObserver; [reflexivity|]. apply in_order_CallSystem. intros d2.
  apply in_order_CallObserver; [reflexivity|]. apply in_order_Done.
Qed.


(** * The claims *)

(** C1 (amended): for every angular momentum [L] whose product [L (L + 1)]
    fits the [int] in which the source computes it ([-46341 <= L <= 46340]),
    every profile evaluator, state [(value, derivative)] and radius [r] at
    which the permittivity is not numerically zero, the system returns the
    vector field [d value / dr = derivative], [d derivative / dr =
    - derivative (derivative + 2/r + eps'/eps) + L (L + 1) / r^2]. *)
Theorem radial_system_vector_field `{External} (L : Z) (eval : ProfileEvaluator)
    (value derivative a b r : float) :
  -46341 <= L <= 46340 ->
  numericalZero (eval r).1 = false ->
  LnTransformedRadial_call (mkLnTransformedRadial eval L) [value; derivative] [a; b] r
  = Returns (vector_field L (eval r).1 (eval r).2 derivative r).
Proof.
  intros HL Hnz. unfold LnTransformedRadial_call, vector_field. simpl.
  destruct (eval r) as [eps epsPrime]. simpl in *. rewrite Hnz.
  now rewrite (mul_succ L HL).
Qed.

Lemma radial_system_vector_field_witness :
  -46341 <= 2 <= 46340 /\
  Sample.numericalZero (Sample.vacuum 1%float).1 = false /\
  LnTransformedRadial_call (H := Sample.external)
    (mkLnTransformedRadial Sample.vacuum 2) [0.5; 0.25]%float [0; 0]%float 1%float
  = Returns [0.25; 5.4375]%float.
Proof.
  split; [lia|]. split; [reflexivity|].
  apply (radial_system_vector_field (H := Sample.external) 2 Sample.vacuum
           0.5%float 0.25%float 0%float 0%float 1%float); [lia | reflexivity].
Defined.

(** C1 as stated fails at [L = 46341]: the product [46341 * 46342] leaves the
    [int] range before it is converted to [double], and the second component
    of the system comes out negative, where the vector field of the
    specification is positive. *)
Lemma radial_system_vector_field_overflow :
  Sample.numericalZero (Sample.vacuum 1%float).1 = false /\
  LnTransformedRadial_call (H := Sample.external)
    (mkLnTransformedRadial Sample.vacuum 46341) [0.5; 0.25]%float [0; 0]%float 1%float
  = Returns [0.25; -2147432674.5625]%float /\
  vector_field (H := Sample.external) 46341 1%float 0%float 0.25%float 1%float
  = [0.25; 2147534621.4375]%float /\
  LnTransformedRadial_call (H := Sample.external)
    (mkLnTransformedRadial Sample.vacuum 46341) [0.5; 0.25]%float [0; 0]%float 1%float
  <> Returns (vector_field (H := Sample.external) 46341 1%float 0%float 0.25%float 1%float).
Proof.
  split; [reflexivity|]. split; [vm_compute; reflexivity|].
  split; [vm_compute; reflexivity|].
  intros Heq.
  apply (f_equal (fun v => match v with
                           | Returns [_; y] => (y <? 0)%float
                           | _ => false
                           end)) in Heq.
  vm_compute in Heq. discriminate.
Qed.

(** C2: [computeZeta] hands the integrator the start time [r_0], the initial
    state [value = L ln r_0], [derivative = L / r_0], the end time
    [r_infinity] and the observer step; it returns exactly when that
    integration completes, and what it returns is the solution it was given
    followed by the recorded points in the order of recording, nothing being
    reversed.  With an integrator that observes at strictly increasing
    radii, the grid returned on an empty solution is in ascending order. *)
Theorem computeZeta_forward `{External} (L : Z) (f : RadialSolution)
    (eval : ProfileEvaluator) (params : IntegratorParameters) (f' : RadialSolution) :
  let system_ := mkLnTransformedRadial eval L in
  let stepper_ :=
    mk_bulirsch_stoer_dense_out (eps_abs_ params) (eps_rel_ params)
      (factor_x_ params) (factor_dxdt_ params) in
  let init_zeta_ :=
    [ (Int32.to_double L * log (r_0_ params))%float;
      (Int32.to_double L / r_0_ params)%float ] in
  let script :=
    integrate_adaptive stepper_ init_zeta_
      (r_0_ params) (r_infinity_ params) (observer_step_ params) in
  (computeZeta L f eval params = (Returns tt, f') <->
   (exists x, outcome system_ script = Returns x) /\
   f' = {| grid := grid f ++ map (fun p : point => p.1.1) (recorded system_ script);
           func := func f ++ map (fun p : point => p.1.2) (recorded system_ script);
           deriv := deriv f ++ map (fun p : point => p.2) (recorded system_ script) |}) /\
  (forall n,
     observes_in_order forward None n script ->
     grid f = [] ->
     computeZeta L f eval params = (Returns tt, f') ->
     strictly_increasing (grid f') = true).
Proof.
  intros system_ stepper_ init_zeta_ script.
  pose proof (computeZeta_cases L f eval params) as Hcases. simpl in Hcases.
  change (zeta_script L params) with script in Hcases. fold system_ in Hcases.
  unfold append_points in Hcases. split.
  - destruct (outcome system_ script) as [x|e|] eqn:Hout.
    + rewrite Hcases. split.
      * intros [= <-]. split; [now exists x | reflexivity].
      * now intros [_ ->].
    + rewrite Hcases. split; [discriminate | intros [[x [=]] _]].
    + split; [|intros [[x [=]] _]].
      intros Heq. rewrite Heq in Hcases. discriminate.
  - intros n Horder Hempty Hret.
    destruct (outcome system_ script) as [x|e|] eqn:Hout;
      rewrite Hret in Hcases; simpl in Hcases; try discriminate.
    injection Hcases as ->. simpl. rewrite Hempty. simpl.
    apply (in_order_increasing None).
    exact (proj1 (recorded_in_order system_ forward None n script x Horder Hout)).
Qed.

Lemma computeZeta_forward_witness :
  computeZeta (H := Sample.external) 1 empty_solution Sample.vacuum Sample.params
  = (Returns tt,
     {| grid := [1; 2; 3]%float; func := [0; 1; 1]%float; deriv := [1; 0; 0.5]%float |}) /\
  strictly_increasing [1; 2; 3]%float = true.
Proof.
  assert (Hret :
            computeZeta (H := Sample.external) 1 empty_solution Sample.vacuum Sample.params
            = (Returns tt,
               {| grid := [1; 2; 3]%float; func := [0; 1; 1]%float;
                  deriv := [1; 0; 0.5]%float |})).
  { apply (proj1 (computeZeta_forward (H := Sample.external) 1 empty_solution
                    Sample.vacuum Sample.params _)).
    split; [eexists; vm_compute; reflexivity | vm_compute; reflexivity]. }
  split; [exact Hret|].
  refine (proj2 (computeZeta_forward (H := Sample.external) 1 empty_solution
                   Sample.vacuum Sample.params _) 2%nat _ eq_refl Hret).
  apply (sample_zeta_observes 1).
Defined.

(** C3: for every [int] [L] (in particular every [L >= 0]), [computeOmega]
    hands the integrator the start time [r_infinity], the initial state
    [value = -(L+1) ln r_infinity], [derivative = -(L+1) / r_infinity], the
    end time [r_0] and the negated observer step; it returns exactly when
    that integration completes, and what it returns is, in each of the three
    vectors, the reversal of what the vector held after recording.  On a
    solution that was empty, radii recorded in descending order come back in
    ascending order. *)
Theorem computeOmega_backward `{External} (L : Z) (f : RadialSolution)
    (eval : ProfileEvaluator) (params : IntegratorParameters) (f' : RadialSolution) :
  Int32.in_range L ->
  let system_ := mkLnTransformedRadial eval L in
  let stepper_ :=
    mk_bulirsch_stoer_dense_out (eps_abs_ params) (eps_rel_ params)
      (factor_x_ params) (factor_dxdt_ params) in
  let init_omega_ :=
    [ (Int32.to_double (- (L + 1)) * log (r_infinity_ params))%float;
      (Int32.to_double (- (L + 1)) / r_infinity_ params)%float ] in
  let script :=
    integrate_adaptive stepper_ init_omega_
      (r_infinity_ params) (r_0_ params) (- observer_step_ params)%float in
  (computeOmega L f eval params = (Returns tt, f') <->
   (exists x, outcome system_ script = Returns x) /\
   f' = {| grid :=
             reverse (grid f ++ map (fun p : point => p.1.1) (recorded system_ script));
           func :=
             reverse (func f ++ map (fun p : point => p.1.2) (recorded system_ script));
           deriv :=
             reverse (deriv f ++ map (fun p : point => p.2) (recorded system_ script)) |}) /\
  (grid f = [] ->
   strictly_decreasing (map (fun p : point => p.1.1) (recorded system_ script)) = true ->
   computeOmega L f eval params = (Returns tt, f') ->
   strictly_increasing (grid f') = true).
Proof.
  intros HL system_ stepper_ init_omega_ script.
  pose proof (computeOmega_cases L f eval params) as Hcases. simpl in Hcases.
  unfold omega_script in Hcases. rewrite (neg_succ L HL) in Hcases.
  fold stepper_ init_omega_ script system_ in Hcases.
  unfold reversed, append_points in Hcases. simpl in Hcases. split.
  - destruct (outcome system_ script) as [x|e|] eqn:Hout.
    + rewrite Hcases. split.
      * intros [= <-]. split; [now exists x | reflexivity].
      * now intros [_ ->].
    + rewrite Hcases. split; [discriminate | intros [[x [=]] _]].
    + split; [|intros [[x [=]] _]].
      intros Heq. rewrite Heq in Hcases. discriminate.
  - intros Hempty Hdec Hret.
    destruct (outcome system_ script) as [x|e|] eqn:Hout;
      rewrite Hret in Hcases; simpl in Hcases; try discriminate.
    injection Hcases as ->. simpl. rewrite Hempty. simpl.
    now rewrite strictly_increasing_reverse.
Qed.

Lemma computeOmega_backward_witness :
  Int32.in_range 1 /\
  computeOmega (H := Sample.external) 1
    {| grid := [0.5]%float; func := [0.25]%float; deriv := [0.125]%float |}
    Sample.vacuum Sample.params
  = (Returns tt,
     {| grid := [1; 2; 3; 0.5]%float;
        func := [-0x1.486b46b46b46cp-1; -0x1.87c3dc3dc3dc4p+0;
                 -0x1.1937437437437p+1; 0.25]%float;
        deriv := [-0x1.7cd6e9e06522cp+0; -0x1.c71c71c71c71cp-1;
                  -0x1.5555555555555p-1; 0.125]%float |}) /\
  strictly_increasing
    (grid (computeOmega (H := Sample.external) 1 empty_solution
             Sample.vacuum Sample.params).2) = true.
Proof.
  assert (Hrange : Int32.in_range 1)
    by (unfold Int32.in_range; vm_compute; split; discriminate).
  split; [exact Hrange|]. split.
  - apply (proj1 (computeOmega_backward (H := Sample.external) 1
                    {| grid := [0.5]%float; func := [0.25]%float;
                       deriv := [0.125]%float |}
                    Sample.vacuum Sample.params _ Hrange)).
    split; [eexists; vm_compute; reflexivity | vm_compute; reflexivity].
  - refine (proj2 (computeOmega_backward (H := Sample.external) 1 empty_solution
                     Sample.vacuum Sample.params _ Hrange) eq_refl _ _);
      vm_compute; reflexivity.
Defined.

(** C4: each evaluator returns the closed form when the point is on the
    outer side of its bound, the bound included, and the spline of the grid
    against the stored values (for the derivatives: the stored derivatives)
    otherwise; [-(L + 1)] is exact for every [int] [L].  A point that
    compares equal to the bound takes the closed form. *)
Theorem evaluators_closed_form_or_spline `{External} (solution : RadialSolution)
    (L : Z) (point bound : float) :
  Int32.in_range L ->
  zeta solution L point bound
  = (if (point <=? bound)%float then (Int32.to_double L * log point)%float
     else splineInterpolation point (grid solution) (func solution)) /\
  derivative_zeta solution L point bound
  = (if (point <=? bound)%float then (Int32.to_double L / point)%float
     else splineInterpolation point (grid solution) (deriv solution)) /\
  omega solution L point bound
  = (if (bound <=? point)%float then (Int32.to_double (- (L + 1)) * log point)%float
     else splineInterpolation point (grid solution) (func solution)) /\
  derivative_omega solution L point bound
  = (if (bound <=? point)%float then (Int32.to_double (- (L + 1)) / point)%float
     else splineInterpolation point (grid solution) (deriv solution)) /\
  ((point =? bound)%float = true ->
   zeta solution L point bound = (Int32.to_double L * log point)%float /\
   derivative_zeta solution L point bound = (Int32.to_double L / point)%float /\
   omega solution L point bound = (Int32.to_double (- (L + 1)) * log point)%float /\
   derivative_omega solution L point bound = (Int32.to_double (- (L + 1)) / point)%float).
Proof.
  intros HL. unfold zeta, derivative_zeta, omega, derivative_omega.
  rewrite (neg_succ L HL).
  repeat (split; [reflexivity|]).
  intros Heq. apply eqb_leb in Heq as [-> ->]. now repeat split.
Qed.

Lemma evaluators_closed_form_or_spline_witness :
  Int32.in_range 1 /\
  zeta (H := Sample.external) empty_solution 1 1%float 1%float = 0%float /\
  derivative_zeta (H := Sample.external) empty_solution 1 1%float 1%float = 1%float /\
  omega (H := Sample.external) empty_solution 1 1%float 1%float = (-0)%float /\
  derivative_omega (H := Sample.external) empty_solution 1 1%float 1%float = (-2)%float.
Proof.
  assert (Hrange : Int32.in_range 1)
    by (unfold Int32.in_range; vm_compute; split; discriminate).
  split; [exact Hrange|].
  destruct (evaluators_closed_form_or_spline (H := Sample.external)
              empty_solution 1 1%float 1%float Hrange) as (_ & _ & _ & _ & Hbound).
  exact (Hbound eq_refl).
Defined.

(** C5: the system evaluates the profile first and throws, whatever the two
    vectors are, exactly when the permittivity returned is numerically zero,
    and then it is the one [domain_error]; a driver throws exactly when the
    permittivity is numerically zero at a radius at which its integration
    evaluates the system; and it does not throw when the permittivity is not
    numerically zero on [r_0, r_infinity] and the integration stays there. *)
Theorem domain_error_iff_zero_permittivity `{External} (L : Z) (f : RadialSolution)
    (eval : ProfileEvaluator) (params : IntegratorParameters) :
  let system_ := mkLnTransformedRadial eval L in
  let inside r :=
    (r_0_ params <=? r)%float = true /\ (r <=? r_infinity_ params)%float = true in
  (forall rho drhodr r e,
     LnTransformedRadial_call system_ rho drhodr r = Throws e <->
     e = domain_error "Division by zero!" /\ numericalZero (eval r).1 = true) /\
  (forall e,
     (computeZeta L f eval params).1 = Throws e <->
     e = domain_error "Division by zero!" /\
     exists r, r ∈ evaluated system_ (zeta_script L params) /\
               numericalZero (eval r).1 = true) /\
  (forall e,
     (computeOmega L f eval params).1 = Throws e <->
     e = domain_error "Division by zero!" /\
     exists r, r ∈ evaluated system_ (omega_script L params) /\
               numericalZero (eval r).1 = true) /\
  ((forall r, inside r -> numericalZero (eval r).1 = false) ->
   (forall r, r ∈ evaluated system_ (zeta_script L params) -> inside r) ->
   forall e, (computeZeta L f eval params).1 <> Throws e) /\
  ((forall r, inside r -> numericalZero (eval r).1 = false) ->
   (forall r, r ∈ evaluated system_ (omega_script L params) -> inside r) ->
   forall e, (computeOmega L f eval params).1 <> Throws e).
Proof.
  intros system_ inside.
  split; [intros rho drhodr r e; apply (call_throws system_)|].
  split; [intros e; rewrite computeZeta_throws; apply (outcome_throws system_)|].
  split; [intros e; rewrite computeOmega_throws; apply (outcome_throws system_)|].
  split; intros Hpos Hpath e.
  - rewrite computeZeta_throws.
    exact (outcome_no_throw system_ _ inside Hpos Hpath e).
  - rewrite computeOmega_throws.
    exact (outcome_no_throw system_ _ inside Hpos Hpath e).
Qed.

Lemma domain_error_iff_zero_permittivity_witness :
  (computeZeta (H := Sample.external) 0 empty_solution Sample.vanishing Sample.params).1
  = Throws (domain_error "Division by zero!") /\
  (forall e,
     (computeZeta (H := Sample.external) 1 empty_solution Sample.vacuum Sample.params).1
     <> Throws e).
Proof.
  split.
  - destruct (domain_error_iff_zero_permittivity (H := Sample.external)
                0 empty_solution Sample.vanishing Sample.params) as (_ & Hzeta & _).
    apply Hzeta. split; [reflexivity|].
    exists 1%float. split; [apply list_elem_of_here | reflexivity].
  - destruct (domain_error_iff_zero_permittivity (H := Sample.external)
                1 empty_solution Sample.vacuum Sample.params) as (_ & _ & _ & Hquiet & _).
    apply Hquiet.
    + intros r _. reflexivity.
    + intros r Hr. vm_compute in Hr.
      apply elem_of_cons in Hr as [->|Hr]; [split; reflexivity|].
      apply elem_of_cons in Hr as [->|Hr]; [split; reflexivity|].
      inversion Hr.
Defined.

(** C6 (amended): when a driver fails with the [domain_error], the error
    reaches the caller and the solution passed in holds what it held before
    followed by every point recorded before the failing evaluation, in the
    order of recording ([computeOmega] has not reversed anything); nothing is
    rolled back. *)
Theorem domain_error_keeps_recorded_points `{External} (L : Z) (f : RadialSolution)
    (eval : ProfileEvaluator) (params : IntegratorParameters)
    (e : exception) (f' : RadialSolution) :
  let system_ := mkLnTransformedRadial eval L in
  (computeZeta L f eval params = (Throws e, f') <->
   outcome system_ (zeta_script L params) = Throws e /\
   f' = append_points f (recorded system_ (zeta_script L params))) /\
  (computeOmega L f eval params = (Throws e, f') <->
   outcome system_ (omega_script L params) = Throws e /\
   f' = append_points f (recorded system_ (omega_script L params))).
Proof.
  intros system_. split.
  - pose proof (computeZeta_cases L f eval params) as Hcases. simpl in Hcases.
    fold system_ in Hcases.
    destruct (outcome system_ (zeta_script L params)) as [x|e'|].
    + rewrite Hcases. split; [discriminate | intros [[=] _]].
    + rewrite Hcases. split; [intros [= <- <-]; now split | now intros [[= <-] ->]].
    + split; [|intros [[=] _]]. intros Heq. rewrite Heq in Hcases. discriminate.
  - pose proof (computeOmega_cases L f eval params) as Hcases. simpl in Hcases.
    fold system_ in Hcases.
    destruct (outcome system_ (omega_script L params)) as [x|e'|].
    + rewrite Hcases. split; [discriminate | intros [[=] _]].
    + rewrite Hcases. split; [intros [= <- <-]; now split | now intros [[= <-] ->]].
    + split; [|intros [[=] _]]. intros Heq. rewrite Heq in Hcases. discriminate.
Qed.

Lemma domain_error_keeps_recorded_points_witness :
  computeZeta (H := Sample.external) 0
    {| grid := [0.5]%float; func := [0.25]%float; deriv := [0.125]%float |}
    Sample.vanishing Sample.params
  = (Throws (domain_error "Division by zero!"),
     {| grid := [0.5; 1]%float; func := [0.25; 0]%float; deriv := [0.125; 0]%float |}).
Proof.
  apply (domain_error_keeps_recorded_points (H := Sample.external)).
  split; vm_compute; reflexivity.
Defined.

(** C6 as stated fails: a profile that vanishes at [r_0] makes the first
    evaluation of the system throw, after the starting point has been
    observed; the solution, empty before the call, holds that point. *)
Lemma domain_error_leaves_partial_result :
  computeZeta (H := Sample.external) 0 empty_solution Sample.vanishing Sample.params
  = (Throws (domain_error "Division by zero!"),
     {| grid := [1]%float; func := [0]%float; deriv := [0]%float |}) /\
  (computeZeta (H := Sample.external) 0 empty_solution Sample.vanishing Sample.params).2
  <> empty_solution /\
  (computeOmega (H := Sample.external) 0 empty_solution Sample.vanishing Sample.params).1
  = Throws (domain_error "Division by zero!") /\
  grid (computeOmega (H := Sample.external) 0 empty_solution
          Sample.vanishing Sample.params).2
  = [3]%float.
Proof.
  split; [vm_compute; reflexivity|].
  split; [vm_compute; discriminate|].
  split; vm_compute; reflexivity.
Qed.

(** C7 (amended): the constructor of [IntegratorParameters] checks nothing:
    for every seven values, malformed or not, it returns the parameters
    holding them unchanged; and the drivers start their integration with
    whatever parameters they are given. *)
Theorem IntegratorParameters_unchecked `{External}
    (e_abs e_rel f_x f_dxdt r0 rinf step : float)
    (L : Z) (f : RadialSolution) (eval : ProfileEvaluator) :
  let params := mkIntegratorParameters e_abs e_rel f_x f_dxdt r0 rinf step in
  IntegratorParameters_new e_abs e_rel f_x f_dxdt r0 rinf step = Returns params /\
  computeZeta L f eval params
  = (_ ← run (mkLnTransformedRadial eval L) (zeta_script L params); mret tt) f /\
  computeOmega L f eval params
  = (_ ← run (mkLnTransformedRadial eval L) (omega_script L params); reverse_solution) f.
Proof.
  intros params. split; [reflexivity|].
  split; [apply computeZeta_run | apply computeOmega_run].
Qed.

(** C7 as stated fails: [r_0 = 2 >= r_infinity = 1] and [r_0 = -1 <= 0] are
    both accepted. *)
Lemma IntegratorParameters_accepts_malformed :
  malformed 2 1 = true /\
  IntegratorParameters_new 0x1p-30 0x1p-30 1 1 2 1 0.5
  = Returns (mkIntegratorParameters 0x1p-30 0x1p-30 1 1 2 1 0.5) /\
  malformed (-1) 3 = true /\
  IntegratorParameters_new 0x1p-30 0x1p-30 1 1 (-1) 3 0.5
  = Returns (mkIntegratorParameters 0x1p-30 0x1p-30 1 1 (-1) 3 0.5).
Proof. repeat split. Qed.




(** C9: reversing a solution twice gives the solution back, element for
    element in the three vectors. *)
Theorem reverse_twice (f : RadialSolution) :
  (_ ← reverse_solution; reverse_solution) f = (Returns tt, f) /\
  grid (reversed (reversed f)) = grid f /\
  func (reversed (reversed f)) = func f /\
  deriv (reversed (reversed f)) = deriv f.
Proof.
  unfold mbind, M_bind, reverse_solution.
  rewrite reversed_involutive. now repeat split.
Qed.

(** C10: neither driver clears the solution it is given.  After a call that
    returns, what the three vectors held is a prefix of what they hold, the
    recorded points coming after it; for [computeOmega] this is so before the
    final reversal, which is then applied to the whole. *)
Theorem drivers_append `{External} (L : Z) (f : RadialSolution)
    (eval : ProfileEvaluator) (params : IntegratorParameters) (f' : RadialSolution) :
  let system_ := mkLnTransformedRadial eval L in
  (computeZeta L f eval params = (Returns tt, f') ->
   f' = append_points f (recorded system_ (zeta_script L params)) /\
   grid f `prefix_of` grid f' /\
   func f `prefix_of` func f' /\
   deriv f `prefix_of` deriv f') /\
  (computeOmega L f eval params = (Returns tt, f') ->
   f' = reversed (append_points f (recorded system_ (omega_script L params))) /\
   grid f `prefix_of` reverse (grid f') /\
   func f `prefix_of` reverse (func f') /\
   deriv f `prefix_of` reverse (deriv f')).
Proof.
  intros system_. split; intros Hret.
  - pose proof (computeZeta_cases L f eval params) as Hcases. simpl in Hcases.
    fold system_ in Hcases.
    destruct (outcome system_ (zeta_script L params));
      rewrite Hret in Hcases; simpl in Hcases; try discriminate.
    injection Hcases as ->. split; [reflexivity|].
    unfold append_points. simpl. repeat split; apply prefix_app_r; reflexivity.
  - pose proof (computeOmega_cases L f eval params) as Hcases. simpl in Hcases.
    fold system_ in Hcases.
    destruct (outcome system_ (omega_script L params));
      rewrite Hret in Hcases; simpl in Hcases; try discriminate.
    injection Hcases as ->. split; [reflexivity|].
    unfold reversed, append_points. simpl. rewrite !reverse_involutive.
    repeat split; apply prefix_app_r; reflexivity.
Qed.

Lemma drivers_append_witness :
  [0.5]%float `prefix_of` [0.5; 1; 2; 3]%float /\
  [0.5]%float `prefix_of` reverse [1; 2; 3; 0.5]%float.
Proof.
  split.
  - refine (proj1 (proj2 (proj1 (drivers_append (H := Sample.external) 1
             {| grid := [0.5]%float; func := [0.25]%float; deriv := [0.125]%float |}
             Sample.vacuum Sample.params
             {| grid := [0.5; 1; 2; 3]%float;
                func := [0.25; 0; 1; 1]%float;
                deriv := [0.125; 1; 0; 0.5]%float |}) _))).
    vm_compute. reflexivity.
  - refine (proj1 (proj2 (proj2 (drivers_append (H := Sample.external) 1
             {| grid := [0.5]%float; func := [0.25]%float; deriv := [0.125]%float |}
             Sample.vacuum Sample.params
             (computeOmega (H := Sample.external) 1
                {| grid := [0.5]%float; func := [0.25]%float; deriv := [0.125]%float |}
                Sample.vacuum Sample.params).2) _))).
    vm_compute. reflexivity.
Defined.

(** * Further properties of the code *)

(** ** [writeRadialSolution] *)

Lemma string_app_assoc (a b c : string) : ((a ++ b) ++ c = a ++ (b ++ c))%string.
Proof.
  induction a as [|ch a IH]; [reflexivity|].
  change (String ch ((a ++ b) ++ c) = String ch (a ++ (b ++ c)))%string.
  now f_equal.
Qed.

Lemma wrap_size_le (n : nat) : (Z.to_nat (Int32.wrap (Z.of_nat n)) <= n)%nat.
Proof.
  unfold Int32.wrap.
  pose proof (Z.mod_le (Z.of_nat n + 2 ^ 31) (2 ^ 32) ltac:(lia) ltac:(lia)).
  lia.
Qed.

Lemma index_drop (l : StateType) (i : nat) :
  (i < length l)%nat -> exists a, index l i = Returns a /\ drop i l = a :: drop (S i) l.
Proof.
  intros Hi. unfold index. destruct (l !! i) as [a|] eqn:Ha.
  - exists a. split; [reflexivity|]. now apply drop_S.
  - apply lookup_ge_None in Ha. lia.
Qed.

Lemma index_undefined (l : StateType) (i : nat) :
  index l i = Undefined <-> (length l <= i)%nat.
Proof.
  unfold index. destruct (l !! i) eqn:Hl.
  - apply lookup_lt_Some in Hl. split; [discriminate | lia].
  - apply lookup_ge_None in Hl. now split.
Qed.

Lemma write_rows_returns (put_double : float -> string) (f : RadialSolution)
    (i count : nat) :
  (i + count <= length (grid f))%nat ->
  (i + count <= length (func f))%nat ->
  (i + count <= length (deriv f))%nat ->
  write_rows put_double f i count
  = Returns (rows_of put_double count
               (drop i (grid f)) (drop i (func f)) (drop i (deriv f))).
Proof.
  revert i. induction count as [|count IH]; intros i Hg Hf Hd; [reflexivity|].
  destruct (index_drop (grid f) i ltac:(lia)) as (r & Hr & ->).
  destruct (index_drop (func f) i ltac:(lia)) as (v & Hv & ->).
  destruct (index_drop (deriv f) i ltac:(lia)) as (d & Hdv & ->).
  cbn [write_rows rows_of]. rewrite Hr, Hv, Hdv. cbn [mbind result_bind].
  rewrite IH by lia. cbn [mbind result_bind]. unfold row.
  now rewrite !string_app_assoc.
Qed.

Lemma write_rows_undefined (put_double : float -> string) (f : RadialSolution)
    (i count : nat) :
  (i + count <= length (grid f))%nat ->
  write_rows put_double f i count = Undefined <->
  (0 < count)%nat /\
  ((length (func f) < i + count)%nat \/ (length (deriv f) < i + count)%nat).
Proof.
  revert i. induction count as [|count IH]; intros i Hg.
  - simpl. split; [discriminate | lia].
  - destruct (index_drop (grid f) i ltac:(lia)) as (r & Hr & _).
    cbn [write_rows]. rewrite Hr. cbn [mbind result_bind].
    destruct (index (func f) i) as [v| |] eqn:Hv.
    + destruct (index (deriv f) i) as [d| |] eqn:Hd.
      * cbn [mbind result_bind].
        assert (Hlf : (i < length (func f))%nat).
        { destruct (decide (i < length (func f))%nat); [assumption|].
          assert (index (func f) i = Undefined) by (apply index_undefined; lia).
          congruence. }
        assert (Hld : (i < length (deriv f))%nat).
        { destruct (decide (i < length (deriv f))%nat); [assumption|].
          assert (index (deriv f) i = Undefined) by (apply index_undefined; lia).
          congruence. }
        specialize (IH (S i) ltac:(lia)).
        destruct (write_rows put_double f (S i) count) as [rest| |].
        -- split; [discriminate|]. intros Hshort.
           assert (Returns rest = Undefined) by (apply IH; lia). discriminate.
        -- split; [discriminate|]. intros Hshort.
           assert (@Throws string e = Undefined) by (apply IH; lia). discriminate.
        -- split; [|reflexivity]. intros _.
           destruct (proj1 IH eq_refl) as [_ [|]]; lia.
      * unfold index in Hd. destruct (deriv f !! i); discriminate.
      * apply index_undefined in Hd. split; [lia | reflexivity].
    + unfold index in Hv. destruct (func f !! i); discriminate.
    + apply index_undefined in Hv. split; [lia | reflexivity].
Qed.

Lemma write_rows_never_throws (put_double : float -> string) (f : RadialSolution)
    (i count : nat) (e : exception) :
  write_rows put_double f i count <> Throws e.
Proof.
  revert i e. induction count as [|count IH]; intros i e; [discriminate|].
  cbn [write_rows]. unfold index.
  destruct (grid f !! i); [|discriminate].
  destruct (func f !! i); [|discriminate].
  destruct (deriv f !! i); [|discriminate].
  cbn [mbind result_bind].
  destruct (write_rows put_double f (S i) count) as [rest|e'|] eqn:Hrest;
    cbn [mbind result_bind]; try discriminate.
  now destruct (IH (S i) e').
Qed.

(** Whatever the size of the grid, vectors at least as long as the grid are
    enough for the call to return. *)
Lemma writeRadialSolution_rows_defined (put_double : float -> string)
    (f : RadialSolution) (fname : string) :
  (length (grid f) <= length (func f))%nat ->
  (length (grid f) <= length (deriv f))%nat ->
  exists text, writeRadialSolution put_double f fname = Returns text.
Proof.
  intros Hf Hd. unfold writeRadialSolution.
  pose proof (wrap_size_le (length (grid f))) as Hsize.
  rewrite write_rows_returns by (simpl; lia).
  cbn [mbind result_bind]. now eexists.
Qed.

(** X1: on a solution whose grid has at most [INT_MAX] points and whose
    other two vectors are at least as long as the grid, [writeRadialSolution]
    writes the header line and then one row per grid point, in grid order,
    each row holding the radius, the value and the derivative of that index;
    entries of the other two vectors beyond the grid's length are not
    written. *)
Theorem writeRadialSolution_text (put_double : float -> string)
    (f : RadialSolution) (fname : string) :
  Z.of_nat (length (grid f)) <= Int32.max_signed ->
  (length (grid f) <= length (func f))%nat ->
  (length (grid f) <= length (deriv f))%nat ->
  writeRadialSolution put_double f fname
  = Returns ("#   r        f        df    " ++ endl
             ++ rows_of put_double (length (grid f)) (grid f) (func f) (deriv f))%string.
Proof.
  intros Hmax Hf Hd. unfold writeRadialSolution.
  rewrite wrap_in_range
    by (unfold Int32.in_range, Int32.min_signed, Int32.max_signed in *; lia).
  rewrite Nat2Z.id, write_rows_returns by (simpl; lia).
  reflexivity.
Qed.

Lemma writeRadialSolution_text_witness :
  writeRadialSolution SamplePrinting.put_double
    {| grid := [1; 2]%float; func := [0; 1; 7]%float; deriv := [1; 0.5]%float |}
    "zeta.dat"
  = Returns ("#   r        f        df    " ++ endl
             ++ "4503599627370496p-52    0      4503599627370496p-52" ++ endl
             ++ "4503599627370496p-51    4503599627370496p-52      4503599627370496p-53"
             ++ endl)%string.
Proof.
  apply (writeRadialSolution_text SamplePrinting.put_double
           {| grid := [1; 2]%float; func := [0; 1; 7]%float; deriv := [1; 0.5]%float |}
           "zeta.dat"); simpl; [vm_compute; discriminate | lia | lia].
Defined.

(** X2: [writeRadialSolution] reads out of range exactly when the value or
    the derivative vector is shorter than the number of rows it writes (the
    size of the grid narrowed to [int]); it raises no exception. *)
Theorem writeRadialSolution_undefined_iff (put_double : float -> string)
    (f : RadialSolution) (fname : string) :
  let size := Z.to_nat (Int32.wrap (Z.of_nat (length (grid f)))) in
  (writeRadialSolution put_double f fname = Undefined <->
   (length (func f) < size)%nat \/ (length (deriv f) < size)%nat) /\
  (forall e, writeRadialSolution put_double f fname <> Throws e).
Proof.
  intros size. unfold writeRadialSolution. fold size.
  pose proof (wrap_size_le (length (grid f))) as Hsize. fold size in Hsize.
  pose proof (write_rows_undefined put_double f 0 size ltac:(simpl; lia)) as Hrows.
  pose proof (write_rows_never_throws put_double f 0 size) as Hquiet.
  destruct (write_rows put_double f 0 size) as [rows|e|]; cbn [mbind result_bind].
  - split; [|discriminate]. split; [discriminate|]. intros Hshort.
    assert (Returns rows = Undefined) by (apply Hrows; simpl; lia). discriminate.
  - now destruct (Hquiet e).
  - split; [|discriminate]. split; [|reflexivity]. intros _.
    destruct (proj1 Hrows eq_refl) as [_ Hshort]. simpl in Hshort. exact Hshort.
Qed.

(** X3: a solution whose three vectors have one length, once a driver has
    returned on it, can be written: [writeRadialSolution] reads nothing out
    of range on what [computeZeta] or [computeOmega] returns. *)
Theorem writeRadialSolution_after_integration `{External}
    (put_double : float -> string) (L : Z) (f : RadialSolution)
    (eval : ProfileEvaluator) (params : IntegratorParameters)
    (f' : RadialSolution) (fname : string) :
  length (grid f) = length (func f) ->
  length (func f) = length (deriv f) ->
  computeZeta L f eval params = (Returns tt, f') \/
  computeOmega L f eval params = (Returns tt, f') ->
  exists text, writeRadialSolution put_double f' fname = Returns text.
Proof.
  intros Hgf Hfd Hret.
  assert (Hlen : length (grid f') = length (func f') /\
                 length (func f') = length (deriv f')).
  { destruct Hret as [Hret|Hret].
    - pose proof (computeZeta_cases L f eval params) as Hcases. simpl in Hcases.
      destruct (outcome _ (zeta_script L params));
        rewrite Hret in Hcases; simpl in Hcases; try discriminate.
      injection Hcases as ->. now apply append_points_lengths.
    - pose proof (computeOmega_cases L f eval params) as Hcases. simpl in Hcases.
      destruct (outcome _ (omega_script L params));
        rewrite Hret in Hcases; simpl in Hcases; try discriminate.
      injection Hcases as ->. unfold reversed. simpl. rewrite !length_reverse.
      now apply append_points_lengths. }
  destruct Hlen as [Hgf' Hfd'].
  destruct (writeRadialSolution_rows_defined put_double f' fname) as [text Htext];
    [lia | lia | now exists text].
Qed.

Lemma writeRadialSolution_after_integration_witness :
  exists text,
    writeRadialSolution SamplePrinting.put_double
      {| grid := [1; 2; 3]%float; func := [0; 1; 1]%float; deriv := [1; 0; 0.5]%float |}
      "zeta.dat"
    = Returns text.
Proof.
  apply (writeRadialSolution_after_integration (H := Sample.external)
           SamplePrinting.put_double 1 empty_solution Sample.vacuum Sample.params);
    [reflexivity | reflexivity | left; vm_compute; reflexivity].
Defined.

(** ** The callbacks at their edges *)

(** X4: [observer] is defined exactly on a state of at least two components;
    it then appends one element to each of the three vectors (the radius,
    [x[0]] and [x[1]]) and ignores every further component of the state. *)
Theorem observer_defined_iff (x : StateType) (r : float) (f : RadialSolution) :
  ((observer x r f).1 = Returns tt <-> (2 <= length x)%nat) /\
  ((observer x r f).1 = Undefined <-> (length x < 2)%nat) /\
  (forall x0 x1 rest,
     x = x0 :: x1 :: rest ->
     observer x r f = observer [x0; x1] r f /\
     grid (observer x r f).2 = grid f ++ [r] /\
     func (observer x r f).2 = func f ++ [x0] /\
     deriv (observer x r f).2 = deriv f ++ [x1]).
Proof.
  split; [|split].
  - destruct x as [|x0 [|x1 rest]]; simpl; split; (discriminate || lia || reflexivity).
  - destruct x as [|x0 [|x1 rest]]; simpl; split; (discriminate || lia || reflexivity).
  - intros x0 x1 rest ->. now rewrite !observer_point.
Qed.

(** X5: at a permittivity that is not numerically zero, the system is
    defined exactly when both of its vectors have at least two components.
    It then overwrites the first two components of [drhodr] and leaves its
    length and its other components as they were; the result depends on the
    state only through its derivative [rho[1]], not on the value [rho[0]],
    nor on what [drhodr] held in its first two components. *)
Theorem system_call_frame `{External} (system_ : LnTransformedRadial)
    (rho drhodr : StateType) (r : float) :
  numericalZero (eval_ system_ r).1 = false ->
  (LnTransformedRadial_call system_ rho drhodr r = Undefined <->
   (length rho < 2)%nat \/ (length drhodr < 2)%nat) /\
  (forall out,
     LnTransformedRadial_call system_ rho drhodr r = Returns out ->
     length out = length drhodr /\ drop 2 out = drop 2 drhodr /\
     out !! 0%nat = rho !! 1%nat) /\
  (forall value value' derivative rest rest' a a' b b' tail,
     rho = value :: derivative :: rest ->
     drhodr = a :: b :: tail ->
     LnTransformedRadial_call system_ rho drhodr r
     = LnTransformedRadial_call system_ (value' :: derivative :: rest')
         (a' :: b' :: tail) r).
Proof.
  intros Hnz. unfold LnTransformedRadial_call.
  destruct (eval_ system_ r) as [eps epsPrime]. simpl in Hnz. rewrite Hnz.
  split; [|split].
  - destruct rho as [|value [|derivative rest]]; simpl;
      try (split; [intros _; left; lia | reflexivity]).
    destruct drhodr as [|a [|b tail]]; simpl;
      try (split; [intros _; right; lia | reflexivity]).
    split; [discriminate | lia].
  - intros out.
    destruct rho as [|value [|derivative rest]]; simpl; try discriminate.
    destruct drhodr as [|a [|b tail]]; simpl; try discriminate.
    intros [= <-]. now repeat split.
  - intros value value' derivative rest rest' a a' b b' tail -> ->. reflexivity.
Qed.

Lemma system_call_frame_witness :
  LnTransformedRadial_call (H := Sample.external)
    (mkLnTransformedRadial Sample.vacuum 2) [0.5; 0.25; 9]%float [0; 0; 7]%float 1%float
  = LnTransformedRadial_call (H := Sample.external)
      (mkLnTransformedRadial Sample.vacuum 2) [3; 0.25]%float [4; 5; 7]%float 1%float.
Proof.
  destruct (system_call_frame (H := Sample.external)
              (mkLnTransformedRadial Sample.vacuum 2)
              [0.5; 0.25; 9]%float [0; 0; 7]%float 1%float eq_refl)
    as (_ & _ & Hsame).
  exact (Hsame _ 3%float _ _ [] _ 4%float _ 5%float _ eq_refl eq_refl).
Defined.

(** X6: when [computeOmega] returns on a solution that already held points,
    each vector of the result is the recorded points in reverse order of
    recording followed by the old contents in reverse: the old contents are
    reversed too and end up last. *)
Theorem computeOmega_old_contents_last `{External} (L : Z) (f : RadialSolution)
    (eval : ProfileEvaluator) (params : IntegratorParameters) (f' : RadialSolution) :
  let pts := recorded (mkLnTransformedRadial eval L) (omega_script L params) in
  computeOmega L f eval params = (Returns tt, f') ->
  grid f' = reverse (map (fun p : point => p.1.1) pts) ++ reverse (grid f) /\
  func f' = reverse (map (fun p : point => p.1.2) pts) ++ reverse (func f) /\
  deriv f' = reverse (map (fun p : point => p.2) pts) ++ reverse (deriv f).
Proof.
  intros pts Hret.
  pose proof (computeOmega_cases L f eval params) as Hcases. simpl in Hcases.
  destruct (outcome _ (omega_script L params));
    rewrite Hret in Hcases; simpl in Hcases; try discriminate.
  injection Hcases as ->. unfold reversed, append_points. simpl.
  now rewrite !reverse_app.
Qed.

Lemma computeOmega_old_contents_last_witness :
  grid (computeOmega (H := Sample.external) 1
          {| grid := [0.25; 0.5]%float; func := [8; 9]%float; deriv := [6; 7]%float |}
          Sample.vacuum Sample.params).2
  = [1; 2; 3; 0.5; 0.25]%float.
Proof.
  refine (proj1 (computeOmega_old_contents_last (H := Sample.external) 1
            {| grid := [0.25; 0.5]%float; func := [8; 9]%float; deriv := [6; 7]%float |}
            Sample.vacuum Sample.params _ _)).
  vm_compute. reflexivity.
Defined.

(** ** Runs that stay within the vectors *)

Lemma call_sized `{External} (system_ : LnTransformedRadial)
    (rho drhodr : StateType) (r : float) :
  (2 <= length rho)%nat -> (2 <= length drhodr)%nat ->
  LnTransformedRadial_call system_ rho drhodr r = Throws (domain_error "Division by zero!")
  \/ exists out, LnTransformedRadial_call system_ rho drhodr r = Returns out /\
                 length out = length drhodr.
Proof.
  intros Hrho Hd. unfold LnTransformedRadial_call.
  destruct (eval_ system_ r) as [eps epsPrime].
  destruct (numericalZero eps); [now left|]. right.
  destruct rho as [|value [|derivative rest]]; simpl in Hrho; try lia.
  destruct drhodr as [|a [|b tail]]; simpl in Hd; try lia.
  eexists. split; reflexivity.
Qed.

Lemma outcome_sized `{External} {A : Type} (system_ : LnTransformedRadial)
    (p : odeint A) :
  sized p ->
  (exists a, outcome system_ p = Returns a) \/
  outcome system_ p = Throws (domain_error "Division by zero!").
Proof.
  induction 1 as [a|x dxdt t k Hx Hd Hk IH|x t k Hx Hk IH]; simpl.
  - left. now exists a.
  - destruct (call_sized system_ x dxdt t Hx Hd) as [->|(out & -> & Hout)].
    + now right.
    + apply (IH out Hout).
  - destruct x as [|x0 [|x1 rest]]; simpl in Hx; try lia. exact IH.
Qed.

Lemma euler_sized (steps : nat) (x : StateType) (t t_end dt : float) :
  (2 <= length x)%nat -> sized (Sample.euler steps x t t_end dt).
Proof.
  revert x t. induction steps as [|steps IH]; intros x t Hx; simpl.
  - constructor; [assumption | constructor].
  - destruct (Sample.less_eq_with_sign (t + dt) t_end dt).
    + constructor; [assumption|]. constructor; [assumption | |].
      * now rewrite length_replicate.
      * intros drhodr Hlen. apply IH.
        rewrite length_zip_with, Hlen, length_replicate. lia.
    + constructor; [assumption | constructor].
Qed.

(** X7: when every callback invocation of the integrator carries a state of
    at least two components (and, for the system, a derivative vector of at
    least two, which the system hands back with its length), a driver never
    indexes a vector out of range: it returns, or it throws the
    [domain_error]. *)
Theorem drivers_stay_in_range `{External} (L : Z) (f : RadialSolution)
    (eval : ProfileEvaluator) (params : IntegratorParameters) :
  (sized (zeta_script L params) ->
   (computeZeta L f eval params).1 = Returns tt \/
   (computeZeta L f eval params).1 = Throws (domain_error "Division by zero!")) /\
  (sized (omega_script L params) ->
   (computeOmega L f eval params).1 = Returns tt \/
   (computeOmega L f eval params).1 = Throws (domain_error "Division by zero!")).
Proof.
  split; intros Hsized.
  - pose proof (computeZeta_cases L f eval params) as Hcases. simpl in Hcases.
    destruct (outcome_sized (mkLnTransformedRadial eval L) _ Hsized) as [[a Ha]|Ha];
      rewrite Ha in Hcases; rewrite Hcases; [now left | now right].
  - pose proof (computeOmega_cases L f eval params) as Hcases. simpl in Hcases.
    destruct (outcome_sized (mkLnTransformedRadial eval L) _ Hsized) as [[a Ha]|Ha];
      rewrite Ha in Hcases; rewrite Hcases; [now left | now right].
Qed.

Lemma drivers_stay_in_range_witness :
  (computeZeta (H := Sample.external) 0 empty_solution Sample.vanishing Sample.params).1
  = Returns tt \/
  (computeZeta (H := Sample.external) 0 empty_solution Sample.vanishing Sample.params).1
  = Throws (domain_error "Division by zero!").
Proof.
  apply (drivers_stay_in_range (H := Sample.external) 0 empty_solution
           Sample.vanishing Sample.params).
  apply euler_sized. simpl. lia.
Defined.

(** X8: whether a driver returns, throws or runs into undefined behaviour
    does not depend on what the solution passed in holds. *)
Theorem drivers_outcome_independent `{External} (L : Z) (f g : RadialSolution)
    (eval : ProfileEvaluator) (params : IntegratorParameters) :
  (computeZeta L f eval params).1 = (computeZeta L g eval params).1 /\
  (computeOmega L f eval params).1 = (computeOmega L g eval params).1.
Proof.
  split.
  - pose proof (computeZeta_cases L f eval params) as Hf.
    pose proof (computeZeta_cases L g eval params) as Hg. simpl in Hf, Hg.
    destruct (outcome _ (zeta_script L params)); now rewrite Hf, Hg.
  - pose proof (computeOmega_cases L f eval params) as Hf.
    pose proof (computeOmega_cases L g eval params) as Hg. simpl in Hf, Hg.
    destruct (outcome _ (omega_script L params)); now rewrite Hf, Hg.
Qed.

(** ** The evaluators at not-a-number *)

Lemma leb_nan_l (x : float) : (nan <=? x)%float = false.
Proof. rewrite FloatAxioms.leb_spec. reflexivity. Qed.

Lemma leb_nan_r (x : float) : (x <=? nan)%float = false.
Proof.
  rewrite FloatAxioms.leb_spec. change (Prim2SF nan) with S754_nan.
  unfold SFleb. now destruct (Prim2SF x).
Qed.

(** X9: a comparison with not-a-number is false, so an evaluator asked at a
    NaN point, or with a NaN bound, never takes the closed form: it hands the
    point to the spline. *)
Theorem evaluators_nan `{External} (solution : RadialSolution) (L : Z) (x : float) :
  zeta solution L nan x = splineInterpolation nan (grid solution) (func solution) /\
  zeta solution L x nan = splineInterpolation x (grid solution) (func solution) /\
  derivative_zeta solution L nan x
  = splineInterpolation nan (grid solution) (deriv solution) /\
  derivative_zeta solution L x nan
  = splineInterpolation x (grid solution) (deriv solution) /\
  omega solution L nan x = splineInterpolation nan (grid solution) (func solution) /\
  omega solution L x nan = splineInterpolation x (grid solution) (func solution) /\
  derivative_omega solution L nan x
  = splineInterpolation nan (grid solution) (deriv solution) /\
  derivative_omega solution L x nan
  = splineInterpolation x (grid solution) (deriv solution).
Proof.
  unfold zeta, derivative_zeta, omega, derivative_omega.
  rewrite !leb_nan_l, !leb_nan_r. now repeat split.
Qed.

(** ** The table of Bondi radii *)

(** The table [initBondi] builds, read off its result once. *)
Lemma initBondi_returns (default_atom : Atoms.Atom) (default_colour : string) :
  Atoms.initBondi default_atom default_colour
  = Returns (map snd (Atoms.Bondi_assignments default_colour)).
Proof. vm_compute. reflexivity. Qed.

(** X10: [initBondi] writes each of the 54 slots of the vector it allocates,
    none outside it: it returns a table of 54 atoms in which nothing is left
    of the default-constructed atoms, whatever the default constructor
    builds. *)
Theorem initBondi_fills_every_slot (default_atom other_atom : Atoms.Atom)
    (default_colour : string) :
  exists Bondi,
    Atoms.initBondi default_atom default_colour = Returns Bondi /\
    length Bondi = 54%nat /\
    Atoms.initBondi other_atom default_colour = Returns Bondi.
Proof.
  exists (map snd (Atoms.Bondi_assignments default_colour)).
  split; [apply initBondi_returns|]. split; [reflexivity | apply initBondi_returns].
Qed.

(** X11: the table is ordered by atomic number: the atom at index [i] has
    charge [i + 1]; every atom sits at the origin with radius scaling 1 and
    the default colour. *)
Theorem initBondi_atomic_numbers (default_atom : Atoms.Atom) (default_colour : string)
    (Bondi : list Atoms.Atom) (i : nat) (a : Atoms.Atom) :
  Atoms.initBondi default_atom default_colour = Returns Bondi ->
  Bondi !! i = Some a ->
  Atoms.atomCharge a = Int32.to_double (Z.of_nat i + 1) /\
  Atoms.atomCoord a = (0, 0, 0)%float /\
  Atoms.atomRadiusScaling a = 1%float /\
  Atoms.atomColour a = default_colour.
Proof.
  rewrite initBondi_returns. intros [= <-] Ha.
  do 54 (destruct i as [|i];
         [injection Ha as <-; repeat split; vm_compute; reflexivity|]).
  discriminate.
Qed.

Lemma initBondi_atomic_numbers_witness :
  exists a,
    map snd (Atoms.Bondi_assignments "Violet") !! 5%nat = Some a /\
    Atoms.atomSymbol a = "C" /\
    Atoms.atomCharge a = 6%float.
Proof.
  eexists. split; [reflexivity|]. split; [reflexivity|].
  refine (proj1 (initBondi_atomic_numbers
                   (Atoms.Atom_new_at_origin "" "" 0 0) "Violet" _ 5 _
                   (initBondi_returns _ _) eq_refl)).
Defined.

(** X12: no two atoms of the table share a symbol or an element name, so an
    atom is found by its symbol, or by its name, at one index only. *)
Theorem initBondi_symbols_distinct (default_atom : Atoms.Atom) (default_colour : string)
    (Bondi : list Atoms.Atom) (i j : nat) (a b : Atoms.Atom) :
  Atoms.initBondi default_atom default_colour = Returns Bondi ->
  Bondi !! i = Some a ->
  Bondi !! j = Some b ->
  Atoms.atomSymbol a = Atoms.atomSymbol b \/ Atoms.atomElement a = Atoms.atomElement b ->
  i = j.
Proof.
  rewrite initBondi_returns. intros Hreturns Ha Hb Hsame.
  assert (Bondi = map snd (Atoms.Bondi_assignments default_colour)) as ->
    by congruence.
  clear Hreturns.
  assert (Hsymbols :
            NoDup (map Atoms.atomSymbol (map snd (Atoms.Bondi_assignments default_colour))))
    by (apply (bool_decide_unpack _); vm_compute; exact I).
  assert (Helements :
            NoDup (map Atoms.atomElement (map snd (Atoms.Bondi_assignments default_colour))))
    by (apply (bool_decide_unpack _); vm_compute; exact I).
  destruct Hsame as [Hsame|Hsame].
  - apply (NoDup_lookup _ i j (Atoms.atomSymbol a) Hsymbols);
      rewrite list_lookup_fmap; [now rewrite Ha | now rewrite Hb, Hsame].
  - apply (NoDup_lookup _ i j (Atoms.atomElement a) Helements);
      rewrite list_lookup_fmap; [now rewrite Ha | now rewrite Hb, Hsame].
Qed.

Lemma initBondi_symbols_distinct_witness :
  exists a b,
    map snd (Atoms.Bondi_assignments "Violet") !! 5%nat = Some a /\
    map snd (Atoms.Bondi_assignments "Violet") !! 5%nat = Some b /\
    Atoms.atomSymbol a = Atoms.atomSymbol b /\
    5%nat = 5%nat.
Proof.
  eexists. eexists. split; [reflexivity|]. split; [reflexivity|].
  split; [reflexivity|].
  refine (initBondi_symbols_distinct (Atoms.Atom_new_at_origin "" "" 0 0) "Violet"
            _ 5 5 _ _ (initBondi_returns _ _) eq_refl eq_refl _).
  left. reflexivity.
Defined.
